(** * Aurora member QA: retrieval pipeline and anomaly scan

    A shallow embedding of [app/qa.py] and [app/analysis.py].  Python
    dictionaries holding a message are records of optional fields, Python
    exceptions are an explicit error result, and the external collaborators
    (the HTTP message source, [dateutil]'s parser, [json.loads], the
    completion service and [rapidfuzz]'s extractor) are function arguments.
    A string is a sequence of characters, one [ascii] each; integers are
    in [Z], with Python's meaning of a negative index or slice bound. *)

From Stdlib Require Import ZArith List String Ascii Bool Lia QArith DecimalString Sorted.
From stdpp Require Import gmap strings list fin_maps.

(** ** Exceptions and results *)

Inductive exn : Type :=
| KeyError
| TypeError
| AttributeError
| IndexError
| ValueError
| ParserError
| JSONDecodeError
| APIError.

Inductive result (A : Type) : Type :=
| Ok (a : A)
| Raise (e : exn).

Arguments Ok {A} a.
Arguments Raise {A} e.

(** Sequencing stops at the first exception; [x ← r; k] is stdpp's
    notation for [mbind]. *)
#[global] Instance result_bind : MBind result :=
  fun A B (k : A -> result B) (r : result A) =>
    match r with
    | Ok a => k a
    | Raise e => Raise e
    end.

#[global] Instance result_ret : MRet result := fun A a => Ok a.

(** A list comprehension whose element expression may raise. *)
Fixpoint mapM {A B : Type} (f : A -> result B) (l : list A) : result (list B) :=
  match l with
  | [] => Ok []
  | x :: xs => y ← f x; ys ← mapM f xs; Ok (y :: ys)
  end.

(** ** Message dictionaries *)

(** One key of a message dictionary: missing, bound to [None], or bound to
    a string. *)
Inductive field : Type :=
| Absent
| Null
| Str (s : string).

(** A Python value that is [None] or a [str]. *)
Abbreviation pyval := (option string).

(** [m.get(key)] *)
Definition get (f : field) : pyval :=
  match f with
  | Str s => Some s
  | _ => None
  end.

(** [m.get(key, default)] *)
Definition get_default (f : field) (d : string) : pyval :=
  match f with
  | Absent => Some d
  | Null => None
  | Str s => Some s
  end.

(** [m[key]] *)
Definition subscript (f : field) : result pyval :=
  match f with
  | Absent => Raise KeyError
  | Null => Ok None
  | Str s => Ok (Some s)
  end.

(** Truth value of a [None]-or-string value. *)
Definition truthy (v : pyval) : bool :=
  match v with
  | Some s => negb (String.eqb s "")
  | None => false
  end.

(** [v or ""] *)
Definition or_empty (v : pyval) : string :=
  match v with
  | Some s => s
  | None => ""
  end.

Record Message : Type := {
  m_id : field;
  m_member_id : field;
  m_member_name : field;
  m_text : field;
  m_timestamp : field
}.

(** ** Strings *)

Definition newline : ascii := ascii_of_nat 10.

(** Characters for which [str.isspace] holds, which are also the ones the
    pattern [\s] matches. *)
Definition is_space (c : ascii) : bool :=
  let n := nat_of_ascii c in
  ((9 <=? n) && (n <=? 13)) || ((28 <=? n) && (n <=? 32)).

Fixpoint lstrip (s : string) : string :=
  match s with
  | EmptyString => EmptyString
  | String c s' => if is_space c then lstrip s' else s
  end.

Fixpoint rstrip (s : string) : string :=
  match s with
  | EmptyString => EmptyString
  | String c s' =>
      match rstrip s' with
      | EmptyString => if is_space c then EmptyString else String c EmptyString
      | r => String c r
      end
  end.

(** [s.strip()] *)
Definition strip (s : string) : string := rstrip (lstrip s).

(** [re.sub(r"\s+", " ", s)]: [in_run] tells whether the previous character
    belonged to a whitespace run already replaced by one space. *)
Fixpoint collapse_ws_from (in_run : bool) (s : string) : string :=
  match s with
  | EmptyString => EmptyString
  | String c s' =>
      if is_space c
      then if in_run then collapse_ws_from true s'
           else String " "%char (collapse_ws_from true s')
      else String c (collapse_ws_from false s')
  end.

Definition collapse_ws (s : string) : string := collapse_ws_from false s.

Definition lower_ascii (c : ascii) : ascii :=
  let n := nat_of_ascii c in
  if (65 <=? n) && (n <=? 90) then ascii_of_nat (n + 32) else c.

Fixpoint map_chars (f : ascii -> ascii) (s : string) : string :=
  match s with
  | EmptyString => EmptyString
  | String c s' => String (f c) (map_chars f s')
  end.

(** [s.lower()] *)
Definition lower (s : string) : string := map_chars lower_ascii s.

(** [s.replace("\n", " ")] *)
Definition replace_newlines (s : string) : string :=
  map_chars (fun c => if Ascii.eqb c newline then " "%char else c) s.

(** [sub in s] *)
Fixpoint contains (sub s : string) : bool :=
  String.prefix sub s ||
  match s with
  | EmptyString => false
  | String _ s' => contains sub s'
  end.

(** [sep.join(lines)] *)
Fixpoint join (sep : string) (lines : list string) : string :=
  match lines with
  | [] => ""
  | [l] => l
  | l :: rest => l +:+ sep +:+ join sep rest
  end.

(** [str(v)] inside an f-string. *)
Definition str_of (v : pyval) : string :=
  match v with
  | Some s => s
  | None => "None"
  end.

(** [str(n)] for a natural number. *)
Definition str_of_nat (n : nat) : string := NilZero.string_of_uint (Nat.to_uint n).

(** ** Sequences *)

(** [l[:k]], where a negative [k] counts from the end. *)
Definition slice_to {A : Type} (k : Z) (l : list A) : list A :=
  if (k <? 0)%Z
  then firstn (Z.to_nat (Z.of_nat (length l) + k)) l
  else firstn (Z.to_nat k) l.

(** [l[i]], where a negative [i] counts from the end. *)
Definition index {A : Type} (l : list A) (i : Z) : result A :=
  let n := Z.of_nat (length l) in
  let j := if (i <? 0)%Z then (i + n)%Z else i in
  if ((j <? 0)%Z || (n <=? j)%Z)
  then Raise IndexError
  else match l !! Z.to_nat j with
       | Some x => Ok x
       | None => Raise IndexError
       end.

(** [range(n)] *)
Definition range (n : Z) : list Z := map Z.of_nat (seq 0 (Z.to_nat n)).

(** * [app/qa.py] *)

(** ** Fetching *)

(** A record of the remote source, before the keys are renamed, in the
    documented shape: the five keys the code reads, each one missing, [None]
    or a string.  Records with other keys (a [text] key of the source's own)
    or with values of another type are outside this model. *)
Record RawItem : Type := {
  r_id : field;
  r_user_id : field;
  r_user_name : field;
  r_message : field;
  r_timestamp : field
}.

(** What one [requests.get] followed by [resp.json()] can produce. *)
Inductive Response : Type :=
| Status403
| Status401
| Failed                         (* any exception: transport, other status, body *)
| Page (items : list RawItem).   (* [data.get("items", [])] *)

(** The remote source answers the [n]-th request of a fetch, made at offset
    [skip]; two requests at one offset need not agree. *)
Abbreviation Source := (nat -> Z -> Response).

Definition page_size : Z := 100.

Inductive loop_exit : Type :=
| Returned      (* [return all_msgs] on 401 or 403 *)
| Finished.     (* the [for] loop was left by [break] or ran out *)

Record FetchRun : Type := {
  run_requests : list (Z * Z);   (* the [skip] and [limit] parameters sent *)
  run_exit : loop_exit;
  run_items : list RawItem
}.

Definition sent (req : Z * Z) (run : FetchRun) : FetchRun :=
  {| run_requests := req :: run_requests run;
     run_exit := run_exit run;
     run_items := run_items run |}.

(** The body of [for _ in range(3)], with [fuel] iterations left; [n]
    counts the requests already made. *)
Fixpoint fetch_loop (source : Source) (limit : Z) (fuel n : nat)
    (skip : Z) (all_msgs : list RawItem) : FetchRun :=
  match fuel with
  | O => {| run_requests := []; run_exit := Finished; run_items := all_msgs |}
  | S fuel' =>
      let req := (skip, page_size) in
      match source n skip with
      | Status403 | Status401 =>
          {| run_requests := [req]; run_exit := Returned; run_items := all_msgs |}
      | Failed => sent req (fetch_loop source limit fuel' (S n) skip all_msgs)
      | Page [] =>
          {| run_requests := [req]; run_exit := Finished; run_items := all_msgs |}
      | Page items =>
          let all_msgs' := all_msgs ++ items in
          let skip' := (skip + page_size)%Z in
          if (limit <=? skip')%Z
          then {| run_requests := [req]; run_exit := Finished; run_items := all_msgs' |}
          else sent req (fetch_loop source limit fuel' (S n) skip' all_msgs')
      end
  end.

Definition fetch_run (source : Source) (limit : Z) : FetchRun :=
  fetch_loop source limit 3 0 0%Z [].

(** [m.pop(key, None)] stored back under the new key. *)
Definition pop_or_none (f : field) : field :=
  match f with
  | Str s => Str s
  | _ => Null
  end.

(** The renaming done once the loop is over. *)
Definition normalize (r : RawItem) : Message :=
  {| m_id := r_id r;
     m_member_id := pop_or_none (r_user_id r);
     m_member_name := pop_or_none (r_user_name r);
     m_text := Str (or_empty (get_default (r_message r) ""));
     m_timestamp := r_timestamp r |}.

(** A record returned on 401 or 403 keeps the source's keys, so the keys
    read downstream are missing from it. *)
Definition unrenamed (r : RawItem) : Message :=
  {| m_id := r_id r;
     m_member_id := Absent;
     m_member_name := Absent;
     m_text := Absent;
     m_timestamp := r_timestamp r |}.

Definition fetch_messages (source : Source) (limit : Z) : list Message :=
  let run := fetch_run source limit in
  match run_exit run with
  | Returned => map unrenamed (run_items run)
  | Finished => map normalize (run_items run)
  end.

(** ** Retrieval *)

Definition _msg_text (m : Message) : string :=
  str_of (get_default (m_member_name m) "") +:+ " :: " +:+
  str_of (get_default (m_text m) "").

(** [rapidfuzz.process.extract(query, choices, scorer=token_set_ratio,
    limit=n)]: triples of choice, score and index into [choices]. *)
Abbreviation Extractor := (string -> list string -> Z -> list (string * Q * Z)).

(** The loop keeping the results that score at least 40. *)
Fixpoint rank_results (corpus : list (string * Message))
    (results : list (string * Q * Z)) : result (list Message) :=
  match results with
  | [] => Ok []
  | (_, score, idx) :: rest =>
      if Qle_bool (40 # 1) score
      then c ← index corpus idx; ms ← rank_results corpus rest; Ok (c.2 :: ms)
      else rank_results corpus rest
  end.

Definition retrieve_top (extract : Extractor) (messages : list Message)
    (question : string) (k : Z) : result (list Message) :=
  match messages with
  | [] => Ok []
  | _ =>
      let corpus := map (fun m => (_msg_text m, m)) messages in
      let strings := map fst corpus in
      let results :=
        extract question strings (Z.min k (Z.of_nat (length strings))) in
      ranked ← rank_results corpus results;
      let ranked' :=
        match ranked with
        | [] => map snd (slice_to k corpus)
        | _ => ranked
        end in
      Ok (slice_to k ranked')
  end.

(** ** Context building *)

Definition len (s : string) : Z := Z.of_nat (String.length s).

(** [re.sub(r"\s+", " ", m.get("text", "")).strip()] *)
Definition normalized_text (m : Message) : result string :=
  match get_default (m_text m) "" with
  | Some t => Ok (strip (collapse_ws t))
  | None => Raise TypeError
  end.

Definition render_line (m : Message) : result string :=
  let name := get (m_member_name m) in
  let ts := get (m_timestamp m) in
  let mid := get (m_id m) in
  txt ← normalized_text m;
  Ok ("- " +:+ str_of name +:+ " | " +:+ str_of ts +:+ " | " +:+
      str_of mid +:+ ": " +:+ txt).

Fixpoint format_loop (snippets : list Message) (max_chars : Z)
    (lines : list string) (used : Z) : result (list string) :=
  match snippets with
  | [] => Ok lines
  | m :: rest =>
      line ← render_line m;
      if (max_chars <? used + len line)%Z
      then Ok lines
      else format_loop rest max_chars (lines ++ [line]) (used + len line)%Z
  end.

Definition format_context (snippets : list Message) (max_chars : Z) : result string :=
  lines ← format_loop snippets max_chars [] 0%Z;
  Ok (join (String newline EmptyString) lines).

(** * [app/analysis.py] *)

(** ** Timestamps *)

(** A [datetime]: its calendar year, whether it carries a time zone, and the
    microsecond count that subtraction works on (UTC when aware, wall clock
    when naive). *)
Record DateTime : Type := {
  dt_year : Z;
  dt_aware : bool;
  dt_micros : Z
}.

(** [dateutil.parser.parse] on a string; [None] when it raises. *)
Abbreviation DateParser := (string -> option DateTime).

(** [date_parse(v)] on a value taken out of a message. *)
Definition date_parse_value (date_parse : DateParser) (v : pyval) : result DateTime :=
  match v with
  | None => Raise TypeError
  | Some s =>
      match date_parse s with
      | Some d => Ok d
      | None => Raise ParserError
      end
  end.

(** [end - start], in microseconds; naive and aware values do not mix. *)
Definition sub_datetime (e s : DateTime) : result Z :=
  if Bool.eqb (dt_aware e) (dt_aware s)
  then Ok (dt_micros e - dt_micros s)%Z
  else Raise TypeError.

(** ** Floating point

    [timedelta.total_seconds()] is the [int] division
    [microseconds / 10**6], which yields a [float]: the quotient rounded to
    the nearest double.  The comparison of the result with an [int] is exact. *)

(** A finite binary floating-point number, [mantissa * 2 ^ exponent]. *)
Record Float : Type := {
  mantissa : Z;
  exponent : Z
}.

(** The integer nearest to [n / d], ties to the even one, for [d] positive. *)
Definition round_half_even (n d : Z) : Z :=
  let q := (n / d)%Z in
  let r := (n mod d)%Z in
  if (2 * r <? d)%Z then q
  else if (d <? 2 * r)%Z then (q + 1)%Z
  else if Z.even q then q
  else (q + 1)%Z.

(** [d * 2 ^ e <= n], for any sign of [e]. *)
Definition scaled_le (d e n : Z) : bool :=
  if (0 <=? e)%Z then (d * 2 ^ e <=? n)%Z else (d <=? n * 2 ^ (- e))%Z.

(** The exponent [e] with [2 ^ e <= n / d < 2 ^ (e + 1)], for [n] and [d]
    positive. *)
Definition binade (n d : Z) : Z :=
  let e := (Z.log2 n - Z.log2 d)%Z in
  if scaled_le d e n then e else (e - 1)%Z.

(** The double nearest to [n / d], for [n] and [d] positive: 53 significant
    bits, ties to even.  The exponent range of a double is not modelled; the
    quotients formed here lie well inside it. *)
Definition round_positive (n d : Z) : Float :=
  let s := (binade n d - 52)%Z in
  {| mantissa := if (0 <=? s)%Z
                 then round_half_even n (d * 2 ^ s)
                 else round_half_even (n * 2 ^ (- s)) d;
     exponent := s |}.

(** [n / d] on two [int]s, [d] positive: the quotient correctly rounded to a
    double. *)
Definition true_divide (n d : Z) : Float :=
  if (n =? 0)%Z then {| mantissa := 0; exponent := 0 |}
  else if (0 <? n)%Z then round_positive n d
  else let f := round_positive (- n) d in
       {| mantissa := - mantissa f; exponent := exponent f |}.

(** [f <= n] for a [float] and an [int], which Python compares exactly. *)
Definition float_le_int (f : Float) (n : Z) : bool :=
  if (0 <=? exponent f)%Z
  then (mantissa f * 2 ^ exponent f <=? n)%Z
  else (mantissa f <=? n * 2 ^ (- exponent f))%Z.

(** [timedelta.total_seconds()] of a difference given in microseconds. *)
Definition total_seconds (delta_micros : Z) : Float :=
  true_divide delta_micros 1000000.

(** [delta.total_seconds() <= seconds]: the float number of seconds against
    the [int] window. *)
Definition within_seconds (delta_micros seconds : Z) : bool :=
  float_le_int (total_seconds delta_micros) seconds.

(** ** Burst detection *)

Record Burst : Type := {
  b_user : pyval;
  b_count : Z;
  b_start : pyval;
  b_end : pyval
}.

(** [m.get("member_name", "Unknown")] *)
Definition user_of (m : Message) : pyval := get_default (m_member_name m) "Unknown".

(** [by_user[user].append(m)] on a dictionary kept in insertion order. *)
Fixpoint by_user_append (user : pyval) (m : Message)
    (by_user : list (pyval * list Message)) : list (pyval * list Message) :=
  match by_user with
  | [] => [(user, [m])]
  | (u, ms) :: rest =>
      if decide (u = user)
      then (u, ms ++ [m]) :: rest
      else (u, ms) :: by_user_append user m rest
  end.

Definition group_by_user (messages : list Message) : list (pyval * list Message) :=
  fold_left (fun by_user m => by_user_append (user_of m) m by_user) messages [].

(** [m.get("timestamp")] is truthy. *)
Definition has_timestamp (m : Message) : bool := truthy (get (m_timestamp m)).

(** The sort key [x["timestamp"]]; on [valid_msgs] it is always a string. *)
Definition timestamp_key (m : Message) : string := or_empty (get (m_timestamp m)).

(** [list.sort(key=...)] is stable: an element moves past those with a
    strictly smaller key only. *)
Fixpoint insert_by {A : Type} (lt : A -> A -> bool) (x : A) (l : list A) : list A :=
  match l with
  | [] => [x]
  | y :: ys => if lt y x then y :: insert_by lt x ys else x :: y :: ys
  end.

Definition stable_sort {A : Type} (lt : A -> A -> bool) (l : list A) : list A :=
  fold_right (insert_by lt) [] l.

Definition sort_by_timestamp (msgs : list Message) : list Message :=
  stable_sort (fun a b => String.ltb (timestamp_key a) (timestamp_key b)) msgs.

(** The test of one window position. *)
Definition window_fits (times : list DateTime) (threshold_count window : Z)
    (i : Z) : result bool :=
  start ← index times i;
  end_ ← index times (i + threshold_count - 1)%Z;
  delta ← sub_datetime end_ start;
  Ok (within_seconds delta window).

(** The dictionary appended to [bursts]. *)
Definition burst_at (user : pyval) (valid_msgs : list Message)
    (threshold_count : Z) (i : Z) : result Burst :=
  first ← index valid_msgs i;
  s ← subscript (m_timestamp first);
  last ← index valid_msgs (i + threshold_count - 1)%Z;
  e ← subscript (m_timestamp last);
  Ok {| b_user := user; b_count := threshold_count; b_start := s; b_end := e |}.

(** The sliding loop over the remaining positions; it stops at the first
    hit. *)
Fixpoint sliding_window (user : pyval) (valid_msgs : list Message)
    (times : list DateTime) (threshold_count window : Z)
    (positions : list Z) : result (option Burst) :=
  match positions with
  | [] => Ok None
  | i :: rest =>
      hit ← window_fits times threshold_count window i;
      if (hit : bool)
      then b ← burst_at user valid_msgs threshold_count i; Ok (Some b)
      else sliding_window user valid_msgs times threshold_count window rest
  end.

(** The work done for one entry of [by_user]. *)
Definition scan_user (date_parse : DateParser) (threshold_count window : Z)
    (user : pyval) (msgs : list Message) : result (option Burst) :=
  match List.filter has_timestamp msgs with
  | [] => Ok None
  | valid =>
      let valid_msgs := sort_by_timestamp valid in
      times ← mapM (fun m => v ← subscript (m_timestamp m);
                             date_parse_value date_parse v) valid_msgs;
      sliding_window user valid_msgs times threshold_count window
        (range (Z.of_nat (length times) - threshold_count + 1))
  end.

Fixpoint scan_users (date_parse : DateParser) (threshold_count window : Z)
    (by_user : list (pyval * list Message)) : result (list Burst) :=
  match by_user with
  | [] => Ok []
  | (user, msgs) :: rest =>
      found ← scan_user date_parse threshold_count window user msgs;
      bursts ← scan_users date_parse threshold_count window rest;
      Ok (match found with
          | Some b => b :: bursts
          | None => bursts
          end)
  end.

Definition detect_burst_messages (date_parse : DateParser)
    (messages : list Message) (threshold_count time_window_seconds : Z)
    : result (list Burst) :=
  scan_users date_parse threshold_count time_window_seconds (group_by_user messages).

(** The detector as the specification words it: within a user's group the
    messages lacking a timestamp are dropped, the others are parsed
    (malformed ones skipped) and sorted by the parsed instant, and the window
    slides over that chronological sequence. *)
Definition parsed_messages (date_parse : DateParser) (msgs : list Message)
    : list (DateTime * Message) :=
  flat_map (fun m =>
              if has_timestamp m
              then match date_parse (timestamp_key m) with
                   | Some d => [(d, m)]
                   | None => []
                   end
              else []) msgs.

Definition chronological (pms : list (DateTime * Message)) : list (DateTime * Message) :=
  stable_sort (fun a b => (dt_micros a.1 <? dt_micros b.1)%Z) pms.

Definition spec_scan_user (date_parse : DateParser) (threshold_count window : Z)
    (user : pyval) (msgs : list Message) : result (option Burst) :=
  let sorted := chronological (parsed_messages date_parse msgs) in
  sliding_window user (map snd sorted) (map fst sorted) threshold_count window
    (range (Z.of_nat (length sorted) - threshold_count + 1)).

Fixpoint spec_scan_users (date_parse : DateParser) (threshold_count window : Z)
    (by_user : list (pyval * list Message)) : result (list Burst) :=
  match by_user with
  | [] => Ok []
  | (user, msgs) :: rest =>
      found ← spec_scan_user date_parse threshold_count window user msgs;
      bursts ← spec_scan_users date_parse threshold_count window rest;
      Ok (match found with
          | Some b => b :: bursts
          | None => bursts
          end)
  end.

Definition spec_detect_burst (date_parse : DateParser) (messages : list Message)
    (threshold_count window : Z) : result (list Burst) :=
  spec_scan_users date_parse threshold_count window (group_by_user messages).

(** ** Underspecified requests *)

(** What [json.loads] returns. *)
#[local] Unset Elimination Schemes.
Inductive json : Type :=
| JNull
| JBool (b : bool)
| JInt (z : Z)
| JFloat (q : Q)
| JStr (s : string)
| JArr (items : list json)
| JObj (members : list (string * json)).
#[local] Set Elimination Schemes.

(** [json.loads] on a string; [None] when it raises. *)
Abbreviation JsonParser := (string -> option json).

(** [client.chat.completions.create(...)] followed by
    [resp.choices[0].message.content], given the system and the user
    prompt; [None] when any of it raises. *)
Abbreviation Completion := (string -> string -> option string).

Definition action_words : list string :=
  ["book"; "reserve"; "schedule"; "arrange"; "order"; "buy"].

(** [any(a in m.get("text", "").lower() for a in action_words)] *)
Definition is_action_request (m : Message) : result bool :=
  match get_default (m_text m) "" with
  | Some t => Ok (existsb (fun a => contains a (lower t)) action_words)
  | None => Raise AttributeError
  end.

Fixpoint filter_candidates (messages : list Message) : result (list Message) :=
  match messages with
  | [] => Ok []
  | m :: rest =>
      keep ← is_action_request m;
      cs ← filter_candidates rest;
      Ok (if (keep : bool) then m :: cs else cs)
  end.

(** The numbered listing, [idx] being the number of the first line. *)
Fixpoint listing_lines (idx : nat) (candidate_msgs : list Message) : result (list string) :=
  match candidate_msgs with
  | [] => Ok []
  | m :: rest =>
      let user := user_of m in
      text ← match get_default (m_text m) "" with
             | Some t => Ok (replace_newlines t)
             | None => Raise AttributeError
             end;
      ls ← listing_lines (S idx) rest;
      Ok ((str_of_nat idx +:+ ". " +:+ str_of user +:+ ": " +:+ text) :: ls)
  end.

Definition nl : string := String newline EmptyString.

Definition system_prompt : string :=
  "You are an expert concierge operations assistant." +:+ nl +:+
  "You will be given a list of messages where clients are asking to book, reserve, schedule, " +:+
  "or arrange something." +:+ nl +:+ nl +:+
  "Your job is to mark which messages are UNDERSPECIFIED, meaning:" +:+ nl +:+
  " - A human concierge could not safely complete the request as written, because key details are missing." +:+ nl +:+
  "Examples of missing details include: date, time, number of people, origin/destination when relevant, " +:+
  "or other critical parameters." +:+ nl +:+
  "If a request has enough information to proceed or at least schedule a follow-up, consider it specified." +:+ nl +:+ nl +:+
  "Return ONLY a JSON array of integers representing the line numbers of underspecified messages." +:+ nl +:+
  "If none are underspecified, return an empty JSON array: [].".

Definition user_prompt (joined : string) : string :=
  "Here are the messages:" +:+ nl +:+ nl +:+
  joined +:+ nl +:+ nl +:+
  "Which line numbers are underspecified? Answer ONLY with a JSON array of integers, e.g. [1, 4, 7].".

(** [isinstance(i, int)], with the integer it stands for: [bool] is a
    subclass of [int], so [True] counts as 1 and [False] as 0. *)
Definition int_instance (j : json) : option Z :=
  match j with
  | JInt z => Some z
  | JBool b => Some (if b then 1 else 0)%Z
  | _ => None
  end.

(** The loop mapping the returned indices back to messages. *)
Fixpoint map_indices (candidate_msgs : list Message) (indices : list json)
    : result (list Message) :=
  match indices with
  | [] => Ok []
  | j :: rest =>
      match int_instance j with
      | Some i =>
          if ((1 <=? i)%Z && (i <=? Z.of_nat (length candidate_msgs))%Z)
          then m ← index candidate_msgs (i - 1)%Z;
               ms ← map_indices candidate_msgs rest;
               Ok (m :: ms)
          else map_indices candidate_msgs rest
      | None => map_indices candidate_msgs rest
      end
  end.

(** The body of the [try] block. *)
Definition classify (completion : Completion) (json_loads : JsonParser)
    (candidate_msgs : list Message) (joined : string) : result (list Message) :=
  match completion system_prompt (user_prompt joined) with
  | None => Raise APIError
  | Some reply =>
      let content := strip reply in
      match json_loads content with
      | None => Raise JSONDecodeError
      | Some (JArr underspecified_indices) =>
          map_indices candidate_msgs underspecified_indices
      | Some _ => Raise ValueError
      end
  end.

(** [api_key] is the value of [os.getenv("OPENAI_API_KEY")]. *)
Definition detect_underspecified_requests_gpt (api_key : pyval)
    (completion : Completion) (json_loads : JsonParser)
    (messages : list Message) (max_examples : Z) : result (list Message) :=
  if negb (truthy api_key) then Ok []
  else
    found ← filter_candidates messages;
    match found with
    | [] => Ok []
    | _ =>
        let candidate_msgs := slice_to max_examples found in
        lines ← listing_lines 1 candidate_msgs;
        let joined := join nl lines in
        match classify completion json_loads candidate_msgs joined with
        | Ok underspecified_msgs => Ok underspecified_msgs
        | Raise _ => Ok []        (* [except Exception] *)
        end
    end.

(** ** The anomaly scan of [main] *)

(** [(m.get("text") or "").strip()] *)
Definition trimmed_text (m : Message) : string := strip (or_empty (get (m_text m))).

(** One step of the loop filling [text_map], a [defaultdict(list)]. *)
Definition text_map_add (text_map : gmap string (list pyval)) (m : Message)
    : result (gmap string (list pyval)) :=
  let txt := trimmed_text m in
  if truthy (Some txt)
  then i ← subscript (m_id m);
       Ok (<[txt := default [] (text_map !! txt) ++ [i]]> text_map)
  else Ok text_map.

Fixpoint fill_text_map (messages : list Message)
    (text_map : gmap string (list pyval)) : result (gmap string (list pyval)) :=
  match messages with
  | [] => Ok text_map
  | m :: rest => tm ← text_map_add text_map m; fill_text_map rest tm
  end.

(** [{txt: ids for txt, ids in text_map.items() if len(ids) > 1}] *)
Definition duplicate_msgs (messages : list Message) : result (gmap string (list pyval)) :=
  text_map ← fill_text_map messages ∅;
  Ok (filter (fun p : string * list pyval => 1 < length p.2) text_map).

(** The body of the loop filling [impossible_times]: malformed values are
    caught and skipped. *)
Definition is_impossible_time (date_parse : DateParser) (future_cutoff_year : Z)
    (m : Message) : bool :=
  let ts := get (m_timestamp m) in
  if negb (truthy ts) then false
  else match date_parse_value date_parse ts with
       | Ok dt => (future_cutoff_year <? dt_year dt)%Z
       | Raise _ => false
       end.

(** [now_year] is [datetime.now().year]. *)
Definition impossible_times (date_parse : DateParser) (now_year : Z)
    (messages : list Message) : list Message :=
  List.filter (is_impossible_time date_parse (now_year + 2)%Z) messages.

Record Report : Type := {
  rep_lengths : list Z;
  rep_missing_user : list Message;
  rep_missing_text : list Message;
  rep_missing_timestamp : list Message;
  rep_duplicate_msgs : gmap string (list pyval);
  rep_short_msgs : list Message;
  rep_impossible_times : list Message;
  rep_burst_cases : list Burst;
  rep_underspecified_cases : list Message
}.

(** The collaborators of the scan. *)
Record Env : Type := {
  env_date_parse : DateParser;
  env_now_year : Z;
  env_api_key : pyval;
  env_completion : Completion;
  env_json_loads : JsonParser
}.

(** [main], from the statistics to the last detector, on the fetched
    messages; the printing is left out. *)
Definition main (env : Env) (messages : list Message) : result Report :=
  lengths ← mapM (fun m => match get_default (m_text m) "" with
                           | Some t => Ok (len t)
                           | None => Raise TypeError
                           end) messages;
  let missing_user := List.filter (fun m => negb (truthy (get (m_member_name m)))) messages in
  let missing_text := List.filter (fun m => negb (truthy (get (m_text m)))) messages in
  let missing_timestamp := List.filter (fun m => negb (has_timestamp m)) messages in
  duplicates ← duplicate_msgs messages;
  let short_msgs := List.filter (fun m => (len (trimmed_text m) <? 5)%Z) messages in
  let impossible := impossible_times (env_date_parse env) (env_now_year env) messages in
  burst_cases ← detect_burst_messages (env_date_parse env) messages 5 30;
  underspecified_cases ←
    detect_underspecified_requests_gpt (env_api_key env) (env_completion env)
      (env_json_loads env) messages 80;
  Ok {| rep_lengths := lengths;
        rep_missing_user := missing_user;
        rep_missing_text := missing_text;
        rep_missing_timestamp := missing_timestamp;
        rep_duplicate_msgs := duplicates;
        rep_short_msgs := short_msgs;
        rep_impossible_times := impossible;
        rep_burst_cases := burst_cases;
        rep_underspecified_cases := underspecified_cases |}.

(** * Concrete collaborators

    Small stand-ins for the external libraries, used to run the functions
    above on concrete data. *)

Definition digit (c : ascii) : option Z :=
  let n := nat_of_ascii c in
  if (48 <=? n) && (n <=? 57) then Some (Z.of_nat (n - 48)) else None.

Fixpoint number_from (acc : Z) (cs : list ascii) : option Z :=
  match cs with
  | [] => Some acc
  | c :: rest => d ← digit c; number_from (acc * 10 + d)%Z rest
  end.

Definition number (cs : list ascii) : option Z :=
  match cs with
  | [] => None
  | _ => number_from 0%Z cs
  end.

Definition is_leap (y : Z) : bool :=
  ((y mod 4 =? 0) && negb (y mod 100 =? 0) || (y mod 400 =? 0))%Z.

Definition days_in_month (y m : Z) : Z :=
  if (m =? 2)%Z then (if is_leap y then 29 else 28)%Z
  else if ((m =? 4) || (m =? 6) || (m =? 9) || (m =? 11))%Z then 30%Z
  else 31%Z.

(** Days from 1970-01-01 to the given date of the proleptic Gregorian
    calendar. *)
Definition days_from_civil (y m d : Z) : Z :=
  let y' := (if m <=? 2 then y - 1 else y)%Z in
  let era := (y' / 400)%Z in
  let yoe := (y' - era * 400)%Z in
  let mp := (if 2 <? m then m - 3 else m + 9)%Z in
  let doy := ((153 * mp + 2) / 5 + d - 1)%Z in
  let doe := (yoe * 365 + yoe / 4 - yoe / 100 + doy)%Z in
  (era * 146097 + doe - 719468)%Z.

(** The timestamps [YYYY-MM-DDTHH:MM:SS] and [YYYY-MM-DD HH:MM:SS], two of
    the forms [dateutil] reads as a naive [datetime]; anything else is
    refused. *)
Definition iso_parse : DateParser := fun s =>
  match list_ascii_of_string s with
  | [y1; y2; y3; y4; d1; m1; m2; d2; a1; a2; sep; h1; h2; c1; i1; i2; c2; s1; s2] =>
      if Ascii.eqb d1 "-" && Ascii.eqb d2 "-" && Ascii.eqb c1 ":" && Ascii.eqb c2 ":"
         && (Ascii.eqb sep "T" || Ascii.eqb sep " ")
      then
        y ← number [y1; y2; y3; y4];
        m ← number [m1; m2];
        d ← number [a1; a2];
        h ← number [h1; h2];
        mi ← number [i1; i2];
        sec ← number [s1; s2];
        if ((1 <=? y) && (1 <=? m) && (m <=? 12) && (1 <=? d) && (d <=? days_in_month y m)
            && (h <? 24) && (mi <? 60) && (sec <? 60))%Z
        then Some {| dt_year := y;
                     dt_aware := false;
                     dt_micros := ((days_from_civil y m d * 86400
                                    + h * 3600 + mi * 60 + sec) * 1000000)%Z |}
        else None
      else None
  | _ => None
  end.

(** [iso_parse] extended with the form that carries six digits of
    microseconds, [YYYY-MM-DDTHH:MM:SS.ffffff], which [dateutil] reads as a
    naive [datetime] too. *)
Definition iso_parse_micros : DateParser := fun s =>
  match iso_parse s with
  | Some d => Some d
  | None =>
      match list_ascii_of_string (String.substring 19 (String.length s - 19) s) with
      | [dot; f1; f2; f3; f4; f5; f6] =>
          if Ascii.eqb dot "."
          then
            d ← iso_parse (String.substring 0 19 s);
            f ← number [f1; f2; f3; f4; f5; f6];
            Some {| dt_year := dt_year d;
                    dt_aware := false;
                    dt_micros := (dt_micros d + f)%Z |}
          else None
      | _ => None
      end
  end.

(** JSON restricted to [null], [true], [false], integers, and arrays of
    those; [json.loads] agrees with it on this fragment. *)
Definition is_json_ws (c : ascii) : bool :=
  let n := nat_of_ascii c in
  (n =? 32) || (n =? 9) || (n =? 10) || (n =? 13).

Fixpoint skip_ws (cs : list ascii) : list ascii :=
  match cs with
  | c :: rest => if is_json_ws c then skip_ws rest else cs
  | [] => []
  end.

Fixpoint span_digits (cs : list ascii) : list ascii * list ascii :=
  match cs with
  | c :: rest =>
      match digit c with
      | Some _ => let '(ds, tl) := span_digits rest in (c :: ds, tl)
      | None => ([], cs)
      end
  | [] => ([], [])
  end.

Definition json_natural (cs : list ascii) : option (Z * list ascii) :=
  let '(ds, tl) := span_digits cs in
  match ds with
  | [] => None
  | [_] => z ← number ds; Some (z, tl)
  | c :: _ => if Ascii.eqb c "0" then None else z ← number ds; Some (z, tl)
  end.

Definition json_scalar (cs : list ascii) : option (json * list ascii) :=
  match cs with
  | "n" :: "u" :: "l" :: "l" :: tl => Some (JNull, tl)
  | "t" :: "r" :: "u" :: "e" :: tl => Some (JBool true, tl)
  | "f" :: "a" :: "l" :: "s" :: "e" :: tl => Some (JBool false, tl)
  | "-" :: tl => '(z, tl') ← json_natural tl; Some (JInt (- z), tl')
  | _ => '(z, tl') ← json_natural cs; Some (JInt z, tl')
  end%char.

(** The elements after the first one, up to the closing bracket. *)
Fixpoint json_more (fuel : nat) (cs : list ascii) : option (list json * list ascii) :=
  match fuel with
  | O => None
  | S fuel' =>
      match skip_ws cs with
      | "]" :: tl => Some ([], tl)
      | "," :: tl =>
          '(v, tl1) ← json_scalar (skip_ws tl);
          '(vs, tl2) ← json_more fuel' tl1;
          Some (v :: vs, tl2)
      | _ => None
      end%char
  end.

Definition json_value (cs : list ascii) : option (json * list ascii) :=
  match cs with
  | "[" :: tl =>
      match skip_ws tl with
      | "]" :: tl' => Some (JArr [], tl')
      | tl' =>
          '(v, tl1) ← json_scalar tl';
          '(vs, tl2) ← json_more (length tl1) tl1;
          Some (JArr (v :: vs), tl2)
      end
  | _ => json_scalar cs
  end%char.

Definition json_flat : JsonParser := fun s =>
  '(v, tl) ← json_value (skip_ws (list_ascii_of_string s));
  match skip_ws tl with
  | [] => Some v
  | _ => None
  end.

(** An extractor scoring 100 the choices that contain the query and 0 the
    others, best first, cut at [limit]. *)
Fixpoint scored_from (idx : Z) (query : string) (choices : list string)
    : list (string * Q * Z) :=
  match choices with
  | [] => []
  | c :: rest =>
      (c, if contains query c then 100 # 1 else 0 # 1, idx)
        :: scored_from (idx + 1)%Z query rest
  end.

Definition substring_extract : Extractor := fun query choices limit =>
  slice_to limit
    (stable_sort (fun a b => negb (Qle_bool a.1.2 b.1.2))
       (scored_from 0%Z query choices)).

(** * Vocabulary of the properties *)

(** ** Fetching *)

(** The answers the source gave to the requests of a loop started at request
    number [n], in order. *)
Definition answers (source : Source) (n : nat) (requests : list (Z * Z)) : list Response :=
  imap (fun j req => source (n + j) req.1) requests.

Definition is_nonempty_page (r : Response) : bool :=
  match r with
  | Page (_ :: _) => true
  | _ => false
  end.

Definition page_items (r : Response) : list RawItem :=
  match r with
  | Page items => items
  | _ => []
  end.

(** The offset reached after a sequence of answers. *)
Definition offset_after (skip : Z) (ans : list Response) : Z :=
  (skip + page_size * Z.of_nat (length (List.filter is_nonempty_page ans)))%Z.

(** An answer after which the loop asks again. *)
Definition continues (limit skip : Z) (r : Response) : Prop :=
  r = Failed \/ (is_nonempty_page r = true /\ (skip + page_size < limit)%Z).

(** An answer that ends the fetch whatever budget is left. *)
Definition stops (limit skip : Z) (r : Response) : Prop :=
  r = Status403 \/ r = Status401 \/ r = Page [] \/
  (is_nonempty_page r = true /\ (limit <= skip + page_size)%Z).

(** A source that never fails, never refuses and never runs dry. *)
Definition sample_item : RawItem :=
  {| r_id := Str "m"; r_user_id := Str "u"; r_user_name := Str "Ann";
     r_message := Str "hello"; r_timestamp := Str "2024-01-01T00:00:00" |}.

Definition full_page : list RawItem := repeat sample_item 100.

Definition steady_source : Source := fun _ _ => Page full_page.

(** A source whose second request fails. *)
Definition flaky_source : Source := fun n _ =>
  match n with
  | 1 => Failed
  | _ => Page full_page
  end.

(** The paging promise: against a source that always answers with a
    non-empty page, the fetch goes on until [limit] records are in. *)
Definition pages_until_limit (source : Source) (limit : Z) : Prop :=
  (forall n skip, exists item items, source n skip = Page (item :: items)) ->
  (limit <= Z.of_nat (length (fetch_messages source limit)))%Z.

(** ** Context building *)

(** The running total [used] after appending [lines]. *)
Definition total_len (lines : list string) : Z :=
  fold_right (fun line acc => (len line + acc)%Z) 0%Z lines.

(** The line on which the accumulation stopped, if it stopped before the
    end of the snippets. *)
Fixpoint stopping_line (snippets : list Message) (max_chars used : Z) : option string :=
  match snippets with
  | [] => None
  | m :: rest =>
      match render_line m with
      | Ok line =>
          if (max_chars <? used + len line)%Z
          then Some line
          else stopping_line rest max_chars (used + len line)%Z
      | Raise _ => None
      end
  end.

(** The bound promised for the context block: its length is at most
    [max_chars] plus the length of the line that stopped the accumulation. *)
Definition within_budget_and_a_line (snippets : list Message) (max_chars : Z) : Prop :=
  forall s, format_context snippets max_chars = Ok s ->
  (len s <= max_chars + len (default EmptyString (stopping_line snippets max_chars 0)))%Z.

Definition short_snippet : Message :=
  {| m_id := Str "1"; m_member_id := Str "u1"; m_member_name := Str "A";
     m_text := Str "ok"; m_timestamp := Str "1" |}.

(** Eighteen snippets whose lines have 15 characters each. *)
Definition short_snippets : list Message := repeat short_snippet 18.

(** ** Retrieval *)

(** The results the extractor hands back to [retrieve_top]. *)
Definition extracted (extract : Extractor) (messages : list Message)
    (question : string) (k : Z) : list (string * Q * Z) :=
  extract question (map _msg_text messages)
    (Z.min k (Z.of_nat (length messages))).

(** The extractor's indices point into the choices it was given. *)
Definition indices_in_range (n : nat) (results : list (string * Q * Z)) : Prop :=
  Forall (fun r : string * Q * Z => (0 <= r.2 < Z.of_nat n)%Z) results.

Definition sample_message (name text ident : string) : Message :=
  {| m_id := Str ident; m_member_id := Str name; m_member_name := Str name;
     m_text := Str text; m_timestamp := Str "2024-01-01T00:00:00" |}.

Definition two_messages : list Message :=
  [sample_message "Ann" "hello there" "1"; sample_message "Bob" "book a table" "2"].

(** ** Duplicates *)

(** [i] is the id of a message of [messages] whose trimmed text is [txt]. *)
Definition id_of_text (messages : list Message) (txt : string) (i : pyval) : Prop :=
  exists m, m ∈ messages /\ subscript (m_id m) = Ok i /\ trimmed_text m = txt.

(** What holds of [text_map] all along the loop filling it. *)
Definition text_map_invariant (messages : list Message)
    (text_map : gmap string (list pyval)) : Prop :=
  forall txt ids, text_map !! txt = Some ids ->
    txt <> EmptyString /\ Forall (id_of_text messages txt) ids.

Definition greetings : list Message :=
  [sample_message "Ann" "hello" "1"; sample_message "Bob" "  hello " "2";
   sample_message "Cid" "bye" "3"].

(** ** Underspecified requests *)

(** The candidate an entry of the returned array stands for, if any. *)
Definition selected (candidate_msgs : list Message) (j : json) : option Message :=
  match int_instance j with
  | Some i =>
      if ((1 <=? i)%Z && (i <=? Z.of_nat (length candidate_msgs))%Z)
      then candidate_msgs !! Z.to_nat (i - 1)
      else None
  | None => None
  end.

(** No message has its text bound to [None]. *)
Definition texts_not_null (messages : list Message) : Prop :=
  Forall (fun m => m_text m <> Null) messages.

Definition jet_request : Message :=
  sample_message "Ann" "Please book a private jet to Paris for this Friday" "2".

Definition table_request : Message :=
  sample_message "Bob" "Book me a table for 2 at Le Bernardin on the 15th at 7 PM" "1".

(** A completion service that gives the same reply to every prompt. *)
Definition replying (reply : string) : Completion := fun _ _ => Some reply.

(** ** Bursts *)

(** The messages of one user, in their original order. *)
Definition user_messages (user : pyval) (messages : list Message) : list Message :=
  filter (fun m => user_of m = user) messages.

(** How many messages of a user have a timestamp present. *)
Definition timestamped_count (messages : list Message) (user : pyval) : nat :=
  length (List.filter has_timestamp (user_messages user messages)).

(** What holds of [by_user] once the messages [seen] are grouped. *)
Definition grouped (seen : list Message) (by_user : list (pyval * list Message)) : Prop :=
  NoDup (map fst by_user) /\
  (forall user msgs, (user, msgs) ∈ by_user -> msgs = user_messages user seen) /\
  (forall m, m ∈ seen -> user_of m ∈ map fst by_user).

(** What is promised of an emitted record: its count, the span of its two
    timestamps as the float number of seconds, which is the exact span
    whenever the window is below [2 ^ 34] seconds in absolute value, and the
    number of timestamped messages of its user. *)
Definition burst_ok (date_parse : DateParser) (messages : list Message)
    (threshold_count window : Z) (b : Burst) : Prop :=
  b_count b = threshold_count /\
  (exists s e ds de,
     b_start b = Some s /\ b_end b = Some e /\
     date_parse s = Some ds /\ date_parse e = Some de /\
     float_le_int (total_seconds (dt_micros de - dt_micros ds)) window = true /\
     ((- 2 ^ 34 < window < 2 ^ 34)%Z ->
      (dt_micros de - dt_micros ds <= window * 1000000)%Z)) /\
  (threshold_count <= Z.of_nat (timestamped_count messages (b_user b)))%Z.

(** A message of [user] with the given timestamp. *)
Definition stamped (user ts : string) : Message :=
  {| m_id := Str "1"; m_member_id := Str user; m_member_name := Str user;
     m_text := Str "hello"; m_timestamp := Str ts |}.

(** Five messages of one user sent 5 seconds apart, and one of another. *)
Definition busy_day : list Message :=
  [stamped "Ann" "2024-01-01T10:00:00"; stamped "Ann" "2024-01-01T10:00:05";
   stamped "Bob" "2024-01-01T10:00:07"; stamped "Ann" "2024-01-01T10:00:10";
   stamped "Ann" "2024-01-01T10:00:15"; stamped "Ann" "2024-01-01T10:00:20"].

(** Two messages of one user sent 50 seconds apart, the later one written
    with a space where the earlier one has a [T]. *)
Definition out_of_order : list Message :=
  [stamped "Ann" "2024-01-01T00:00:00"; stamped "Ann" "2024-01-01 00:00:50"].

(** Two messages of one user sent [10 ^ 11] seconds and one microsecond
    apart. *)
Definition far_apart : list Message :=
  [stamped "Ann" "2000-01-01T00:00:00";
   stamped "Ann" "5168-11-15T09:46:40.000001"].

(** The claim as the specification words it: the two timestamps of every
    emitted record are at most [window] seconds apart. *)
Definition span_within_window (date_parse : DateParser) (messages : list Message)
    (threshold_count window : Z) : Prop :=
  forall bursts,
    detect_burst_messages date_parse messages threshold_count window = Ok bursts ->
    Forall (fun b =>
      exists s e ds de,
        b_start b = Some s /\ b_end b = Some e /\
        date_parse s = Some ds /\ date_parse e = Some de /\
        (dt_micros de - dt_micros ds <= window * 1000000)%Z) bursts.

(** An environment with no completion credential. *)
Definition offline (date_parse : DateParser) : Env :=
  {| env_date_parse := date_parse;
     env_now_year := 2024;
     env_api_key := None;
     env_completion := fun _ _ => None;
     env_json_loads := json_flat |}.

(** Every timestamp present in [messages] parses, and the parsed values are
    all aware or all naive, as [aware] says. *)
Definition timestamps_parse (date_parse : DateParser) (aware : bool)
    (messages : list Message) : Prop :=
  forall m ts, m ∈ messages -> m_timestamp m = Str ts -> ts <> EmptyString ->
    exists d, date_parse ts = Some d /\ dt_aware d = aware.

(** * The answering path: [llm_answer], [route] and the [/ask] endpoint *)

Definition qa_system_prompt : string :=
  "You are a helpful assistant that answers questions strictly using the provided message context. " +:+
  "If the answer is not in the context, respond exactly with 'I don’t know'. " +:+
  "Do not hallucinate or invent details.".

Definition qa_user_prompt (question context : string) : string :=
  "Context:" +:+ nl +:+ context +:+ nl +:+ nl +:+
  "Question: " +:+ question +:+ nl +:+ "Answer:".

Definition missing_key_answer : string := "Error: OPENAI_API_KEY missing".

(** [api_key] is the module constant [OPENAI_API_KEY]; nothing catches what
    the completion call raises. *)
Definition llm_answer (api_key : pyval) (completion : Completion)
    (question context : string) : result string :=
  if negb (truthy api_key) then Ok missing_key_answer
  else match completion qa_system_prompt (qa_user_prompt question context) with
       | Some reply => Ok (strip reply)
       | None => Raise APIError
       end.

Definition route (extract : Extractor) (api_key : pyval) (completion : Completion)
    (question : string) (messages : list Message) : result string :=
  snippets ← retrieve_top extract messages question 24;
  context ← format_context snippets 8000;
  llm_answer api_key completion question context.

(** What the endpoint sends back: the answer with status 200, or status 500
    with the text of the exception. *)
Inductive HttpResponse : Type :=
| Answer (answer : string)
| ServerError (e : exn).

(** [ask] of [app/main.py]. *)
Definition ask (source : Source) (extract : Extractor) (api_key : pyval)
    (completion : Completion) (q : string) : HttpResponse :=
  let messages := fetch_messages source 300 in
  match route extract api_key completion q messages with
  | Ok answer => Answer answer
  | Raise e => ServerError e
  end.

(** * Vocabulary of the further properties *)

(** ** Strings *)

Definition starts_with_space (s : string) : bool :=
  match s with
  | String c _ => is_space c
  | EmptyString => false
  end.

Fixpoint ends_with_space (s : string) : bool :=
  match s with
  | EmptyString => false
  | String c EmptyString => is_space c
  | String _ s' => ends_with_space s'
  end.

(** Every whitespace character is a space, and none follows another. *)
Fixpoint single_spaced (s : string) : bool :=
  match s with
  | EmptyString => true
  | String c s' =>
      (if is_space c then Ascii.eqb c " " && negb (starts_with_space s') else true)
      && single_spaced s'
  end.

(** ** Context building *)

Definition untidy_snippet : Message :=
  {| m_id := Str "7"; m_member_id := Str "u7"; m_member_name := Str "Eve";
     m_text := Str (String newline "  two" +:+ String newline "lines  ");
     m_timestamp := Null |}.

(** ** Fetching *)

(** The record has been renamed: its text is a string, and the member keys
    are bound. *)
Definition renamed (m : Message) : Prop :=
  (exists s, m_text m = Str s) /\ m_member_name m <> Absent /\ m_member_id m <> Absent.

(** The record still has the source's keys: the keys read downstream are
    missing. *)
Definition not_renamed (m : Message) : Prop :=
  m_text m = Absent /\ m_member_name m = Absent /\ m_member_id m = Absent.

(** A source that serves one page and then refuses. *)
Definition refusing_source : Source := fun n _ =>
  match n with
  | 0 => Page [sample_item]
  | _ => Status403
  end.

(** A source with a single record to serve. *)
Definition one_page_source : Source := fun n _ =>
  match n with
  | 0 => Page [sample_item]
  | _ => Page []
  end.

(** A source that is down. *)
Definition dead_source : Source := fun _ _ => Failed.

(** ** Underspecified requests *)

(** A completion service that is down. *)
Definition failing : Completion := fun _ _ => None.

Definition no_text : Message :=
  {| m_id := Str "9"; m_member_id := Null; m_member_name := Null;
     m_text := Null; m_timestamp := Null |}.

(** ** Duplicates *)

(** The ids of the messages whose trimmed text is [txt], in input order. *)
Definition ids_with_text (txt : string) (messages : list Message) : list pyval :=
  flat_map (fun m =>
              if decide (trimmed_text m = txt)
              then match subscript (m_id m) with
                   | Ok i => [i]
                   | Raise _ => []
                   end
              else []) messages.

(** What [text_map] holds for a text once [seen] has been gone through. *)
Definition text_map_entry (seen : list Message) (txt : string) : option (list pyval) :=
  if decide (txt <> EmptyString /\ ids_with_text txt seen <> [])
  then Some (ids_with_text txt seen)
  else None.

Definition no_id : Message :=
  {| m_id := Absent; m_member_id := Null; m_member_name := Str "Dan";
     m_text := Str "hello"; m_timestamp := Null |}.

(** ** Bursts *)

(** The parsed timestamps of the messages of [user] that have one, in the
    order in which the sliding loop goes through them. *)
Definition user_times (date_parse : DateParser) (messages : list Message)
    (user : pyval) : result (list DateTime) :=
  mapM (fun m => (v ← subscript (m_timestamp m); date_parse_value date_parse v))
    (sort_by_timestamp (List.filter has_timestamp (user_messages user messages))).

(** Some [threshold_count] consecutive timestamps of [user], the first at
    position [i] and the last at position [i + threshold_count - 1], are at
    most [window] seconds apart, the difference being taken exactly. *)
Definition has_fitting_window (date_parse : DateParser) (threshold_count window : Z)
    (messages : list Message) (user : pyval) : Prop :=
  exists times (i : nat) first last,
    user_times date_parse messages user = Ok times /\
    times !! i = Some first /\
    times !! (i + Z.to_nat (threshold_count - 1))%nat = Some last /\
    (dt_micros last - dt_micros first <= window * 1000000)%Z.

(** ** The scan of [main] *)

(** Every message whose trimmed text is not empty has an [id] key. *)
Definition ids_present (messages : list Message) : Prop :=
  forall m, m ∈ messages -> trimmed_text m <> EmptyString -> m_id m <> Absent.

(** * Properties of [app/qa.py] *)

Section Fetching.

Variable source : Source.
Variable limit : Z.

Lemma answers_cons n req requests :
  answers source n (req :: requests) =
  source n req.1 :: answers source (S n) requests.
Proof.
  unfold answers. rewrite imap_cons. f_equal.
  - f_equal. lia.
  - apply imap_ext. intros j r _. simpl. f_equal. lia.
Qed.

Lemma answers_length n requests :
  length (answers source n requests) = length requests.
Proof. unfold answers. apply length_imap. Qed.

(** One unfolding of the loop, by the answer to the request at hand. *)
Lemma fetch_loop_step fuel n skip all_msgs :
  fetch_loop source limit (S fuel) n skip all_msgs =
  match source n skip with
  | Status403 | Status401 =>
      {| run_requests := [(skip, page_size)]; run_exit := Returned;
         run_items := all_msgs |}
  | Failed =>
      sent (skip, page_size) (fetch_loop source limit fuel (S n) skip all_msgs)
  | Page [] =>
      {| run_requests := [(skip, page_size)]; run_exit := Finished;
         run_items := all_msgs |}
  | Page items =>
      if (limit <=? skip + page_size)%Z
      then {| run_requests := [(skip, page_size)]; run_exit := Finished;
              run_items := all_msgs ++ items |}
      else sent (skip, page_size)
             (fetch_loop source limit fuel (S n) (skip + page_size) (all_msgs ++ items))
  end.
Proof. reflexivity. Qed.

Lemma fetch_loop_budget fuel n skip all_msgs :
  length (run_requests (fetch_loop source limit fuel n skip all_msgs)) <= fuel.
Proof.
  revert n skip all_msgs.
  induction fuel as [|fuel IH]; intros n skip all_msgs; [simpl; lia|].
  rewrite fetch_loop_step.
  destruct (source n skip) as [| | |[|item items]]; simpl; try lia.
  - specialize (IH (S n) skip all_msgs). lia.
  - destruct (limit <=? skip + page_size)%Z; simpl; [lia|].
    specialize (IH (S n) (skip + page_size)%Z (all_msgs ++ item :: items)). lia.
Qed.

Lemma fetch_loop_first fuel n skip all_msgs :
  head (run_requests (fetch_loop source limit (S fuel) n skip all_msgs))
  = Some (skip, page_size).
Proof.
  rewrite fetch_loop_step.
  destruct (source n skip) as [| | |[|item items]]; simpl; try reflexivity.
  destruct (limit <=? skip + page_size)%Z; reflexivity.
Qed.

Lemma offset_after_cons skip r ans :
  offset_after skip (r :: ans) =
  offset_after (if is_nonempty_page r then skip + page_size else skip)%Z ans.
Proof.
  unfold offset_after. simpl. destruct (is_nonempty_page r); simpl; lia.
Qed.

Lemma offset_after_nil skip : offset_after skip [] = skip.
Proof. unfold offset_after. simpl. lia. Qed.

(** Every request asks for one page, at the offset reached by the
    non-empty pages received before it. *)
Lemma fetch_loop_offsets fuel : forall n skip all_msgs j req,
  let requests := run_requests (fetch_loop source limit fuel n skip all_msgs) in
  requests !! j = Some req ->
  req = (offset_after skip (take j (answers source n requests)), page_size).
Proof.
  induction fuel as [|fuel IH]; intros n skip all_msgs j req; [done|].
  cbv zeta. rewrite fetch_loop_step.
  destruct (source n skip) as [| | |[|item items]] eqn:Hans;
    try (destruct j; simpl; [rewrite offset_after_nil; congruence | done]).
  - simpl. rewrite answers_cons. destruct j as [|j]; simpl.
    + rewrite offset_after_nil; congruence.
    + intros Hj. rewrite offset_after_cons, Hans. simpl.
      exact (IH _ _ _ _ _ Hj).
  - destruct (limit <=? skip + page_size)%Z.
    + destruct j; simpl; [rewrite offset_after_nil; congruence | done].
    + simpl. rewrite answers_cons. destruct j as [|j]; simpl.
      * rewrite offset_after_nil; congruence.
      * intros Hj. rewrite offset_after_cons, Hans. simpl.
        exact (IH _ _ _ _ _ Hj).
Qed.

(** The accumulated records are the pages received, in order. *)
Lemma fetch_loop_items fuel : forall n skip all_msgs,
  let run := fetch_loop source limit fuel n skip all_msgs in
  run_items run =
  all_msgs ++ concat (map page_items (answers source n (run_requests run))).
Proof.
  induction fuel as [|fuel IH]; intros n skip all_msgs; cbv zeta.
  { simpl. by rewrite app_nil_r. }
  rewrite fetch_loop_step.
  destruct (source n skip) as [| | |[|item items]] eqn:Hans;
    [| | |
     |destruct (limit <=? skip + page_size)%Z];
    cbn [sent run_requests run_items];
    rewrite answers_cons; cbn [fst map concat]; rewrite Hans;
    cbn [page_items app].
  1,2,4: by rewrite app_nil_r.
  - apply IH.
  - by rewrite app_nil_r.
  - rewrite IH. by rewrite <- app_assoc.
Qed.

(** A request that is not the last one was answered by a failure or by a
    non-empty page that left the offset below [limit]. *)
Lemma fetch_loop_continues fuel : forall n skip all_msgs j req r,
  let requests := run_requests (fetch_loop source limit fuel n skip all_msgs) in
  requests !! j = Some req ->
  answers source n requests !! j = Some r ->
  S j < length requests ->
  continues limit req.1 r.
Proof.
  induction fuel as [|fuel IH]; intros n skip all_msgs j req r; [done|].
  cbv zeta. rewrite fetch_loop_step.
  destruct (source n skip) as [| | |[|item items]] eqn:Hans;
    try (simpl; intros; lia).
  - simpl. rewrite answers_cons. destruct j as [|j]; simpl.
    + intros Hreq Hr _. simplify_eq. left. exact Hans.
    + intros Hreq Hr Hlt. eapply IH; eauto. lia.
  - destruct (limit <=? skip + page_size)%Z eqn:Hlim; [simpl; intros; lia|].
    simpl. rewrite answers_cons. destruct j as [|j]; simpl.
    + intros Hreq Hr _. simplify_eq. right. simpl. rewrite Hans.
      split; [done|]. lia.
    + intros Hreq Hr Hlt. eapply IH; eauto. lia.
Qed.

(** A fetch that leaves part of its budget unused ended on an answer that
    stops it. *)
Lemma fetch_loop_stops fuel : forall n skip all_msgs,
  let requests := run_requests (fetch_loop source limit fuel n skip all_msgs) in
  length requests < fuel ->
  exists req r,
    last requests = Some req /\
    last (answers source n requests) = Some r /\
    stops limit req.1 r.
Proof.
  induction fuel as [|fuel IH]; intros n skip all_msgs; cbv zeta; [lia|].
  rewrite fetch_loop_step.
  destruct (source n skip) as [| | |[|item items]] eqn:Hans.
  1,2,4: intros _; eexists _, _; unfold answers; simpl;
         rewrite Nat.add_0_r, Hans; unfold stops; eauto 6.
  - simpl. rewrite answers_cons. intros Hlt.
    destruct (IH (S n) skip all_msgs) as (req & r & Hl1 & Hl2 & Hstop); [lia|].
    exists req, r. split_and!; [| |done].
    + destruct (run_requests _) eqn:E; [done|]. by rewrite last_cons, Hl1.
    + rewrite last_cons, Hl2. done.
  - destruct (limit <=? skip + page_size)%Z eqn:Hlim.
    + intros _. eexists _, _. unfold answers; simpl.
      rewrite Nat.add_0_r, Hans. split_and!; [done..|].
      right; right; right. split; [done|]. simpl. lia.
    + simpl. rewrite answers_cons. intros Hlt.
      destruct (IH (S n) (skip + page_size)%Z (all_msgs ++ item :: items))
        as (req & r & Hl1 & Hl2 & Hstop); [lia|].
      exists req, r. split_and!; [| |done].
      * by rewrite last_cons, Hl1.
      * rewrite last_cons, Hl2. done.
Qed.

(** The fetch returns early exactly when its last answer was 401 or 403. *)
Lemma fetch_loop_exit fuel : forall n skip all_msgs,
  let run := fetch_loop source limit fuel n skip all_msgs in
  run_exit run = Returned <->
  (last (answers source n (run_requests run)) = Some Status403 \/
   last (answers source n (run_requests run)) = Some Status401).
Proof.
  induction fuel as [|fuel IH]; intros n skip all_msgs; cbv zeta.
  { simpl. split; [done|]. intros [?|?]; done. }
  rewrite fetch_loop_step.
  destruct (source n skip) as [| | |[|item items]] eqn:Hans;
    [| | |
     |destruct (limit <=? skip + page_size)%Z];
    cbn [sent run_requests run_exit];
    rewrite answers_cons; cbn [fst].
  1,2,4,5: unfold answers; simpl; rewrite Hans;
    (split; [intros ?; first [done | by auto] | by intros [?|?]]).
  - rewrite IH. destruct (answers source (S n) _) eqn:E.
    + simpl. rewrite Hans. split; by intros [?|?].
    + by rewrite !last_cons_cons.
  - rewrite IH. destruct (answers source (S n) _) eqn:E.
    + simpl. rewrite Hans. split; by intros [?|?].
    + by rewrite !last_cons_cons.
Qed.

End Fetching.

(** C1, as amended.  [fetch_messages] sends at most three requests in all,
    retries included.  Each asks for a page of 100 records, at the offset
    reached by the non-empty pages received so far, the first at offset 0; a
    request that raises is repeated at the same offset and uses up one of the
    three.  The fetch goes on after a failure or after a non-empty page that
    leaves the offset below [limit]; when it stops before the third request
    it stopped on an empty page, on a 401 or 403 answer, or on the offset
    reaching [limit].  The list returned is exactly the records of the pages
    received, in the order received: with [message] renamed to [text],
    [user_name] to [member_name] and [user_id] to [member_id] when the loop
    ran to its end, and with no key renamed when the last answer was a 401
    or a 403. *)
Theorem fetch_messages_three_requests (source : Source) (limit : Z) :
  let run := fetch_run source limit in
  let requests := run_requests run in
  let ans := answers source 0 requests in
  1 <= length requests <= 3 /\
  (forall j req, requests !! j = Some req ->
     req = (offset_after 0 (take j ans), page_size)) /\
  run_items run = concat (map page_items ans) /\
  (forall j req r, requests !! j = Some req -> ans !! j = Some r ->
     S j < length requests -> continues limit req.1 r) /\
  (length requests < 3 ->
     exists req r, last requests = Some req /\ last ans = Some r /\
                   stops limit req.1 r) /\
  (run_exit run = Returned <->
     last ans = Some Status403 \/ last ans = Some Status401) /\
  fetch_messages source limit =
    map (match run_exit run with
         | Returned => unrenamed
         | Finished => normalize
         end) (concat (map page_items ans)).
Proof.
  cbv zeta. unfold fetch_run. split_and!.
  - pose proof (fetch_loop_first source limit 2 0 0%Z []) as Hhd.
    destruct (run_requests _); [done|]. simpl; lia.
  - apply fetch_loop_budget.
  - apply fetch_loop_offsets.
  - apply (fetch_loop_items source limit 3 0 0%Z []).
  - apply fetch_loop_continues.
  - apply fetch_loop_stops.
  - apply fetch_loop_exit.
  - unfold fetch_messages, fetch_run.
    pose proof (fetch_loop_items source limit 3 0 0%Z []) as Hitems.
    cbn [app] in Hitems. rewrite <- Hitems.
    by destruct (run_exit _).
Qed.

(** C1, as stated, fails: against a source that serves a full page of 100
    records to every request, a fetch with limit 500 stops after the third
    page, with 300 records. *)
Lemma fetch_messages_stops_at_third_page :
  ~ pages_until_limit steady_source 500.
Proof.
  intros H.
  assert (Hlen : length (fetch_messages steady_source 500) = 300)
    by (vm_compute; reflexivity).
  unfold pages_until_limit in H. rewrite Hlen in H.
  assert (500 <= Z.of_nat 300)%Z; [|lia].
  apply H. intros n skip. by eexists _, _.
Qed.

(** A single failed request is not retried three times on its own: it
    takes one of the three requests of the whole fetch. *)
Example fetch_messages_flaky :
  run_requests (fetch_run flaky_source 300) =
    [(0, 100); (100, 100); (100, 100)]%Z /\
  length (fetch_messages flaky_source 300) = 200.
Proof. vm_compute. done. Qed.

Section ContextBuilding.

Lemma len_append s1 s2 : len (s1 +:+ s2) = (len s1 + len s2)%Z.
Proof.
  unfold len. induction s1 as [|c s1 IH]; simpl; [done|]. lia.
Qed.

Lemma total_len_app lines more :
  total_len (lines ++ more) = (total_len lines + total_len more)%Z.
Proof.
  induction lines as [|l lines IH]; simpl; [done|]. rewrite IH. lia.
Qed.

Lemma len_nonneg s : (0 <= len s)%Z.
Proof. unfold len. lia. Qed.

(** Joining adds one separator per line after the first. *)
Lemma len_join lines :
  len (join nl lines) =
  (total_len lines + Z.max 0 (Z.of_nat (length lines) - 1))%Z.
Proof.
  induction lines as [|l [|l' lines] IH].
  - reflexivity.
  - simpl. lia.
  - change (join nl (l :: l' :: lines)) with (l +:+ nl +:+ join nl (l' :: lines)).
    rewrite !len_append, IH. cbn [total_len fold_right length].
    change (len nl) with 1%Z. lia.
Qed.

(** What the loop has done when it ends, from any state whose running
    total is the length of the lines kept so far. *)
Lemma format_loop_spec snippets : forall max_chars lines used out,
  format_loop snippets max_chars lines used = Ok out ->
  exists more,
    out = lines ++ more /\
    mapM render_line (take (length more) snippets) = Ok more /\
    (more <> [] -> (used + total_len more <= max_chars)%Z) /\
    (forall line, stopping_line snippets max_chars used = Some line ->
                  (max_chars < used + total_len more + len line)%Z) /\
    (stopping_line snippets max_chars used = None ->
     length more = length snippets).
Proof.
  induction snippets as [|m rest IH]; intros max_chars lines used out; simpl.
  { intros [= <-]. exists []. rewrite app_nil_r. by split_and!. }
  destruct (render_line m) as [line|e] eqn:Hline; simpl; [|done].
  destruct (max_chars <? used + len line)%Z eqn:Hcut.
  - intros [= <-]. exists []. rewrite app_nil_r.
    split_and!; try done.
    intros line' [= <-]. simpl. lia.
  - intros Hout. apply IH in Hout
      as (more & -> & Hmore & Hsum & Hstop & Hend).
    exists (line :: more). rewrite <- app_assoc. simpl.
    rewrite Hline. simpl. rewrite Hmore. simpl.
    split_and!; try done.
    + intros _. destruct more as [|l more].
      * simpl. lia.
      * specialize (Hsum ltac:(done)). lia.
    + intros line' Hl. specialize (Hstop line' Hl). lia.
    + intros Hnone. by rewrite Hend.
Qed.

End ContextBuilding.

(** C5, as amended.  [format_context] keeps a prefix of the rendered lines:
    before appending a line it checks whether the running total of the line
    lengths plus this line's length would exceed [max_chars], and stops for
    good if so.  Hence the lengths of the included lines sum to at most
    [max_chars], the line that stopped the loop would have taken the total
    over it, and the returned string, the included lines joined by
    newlines, has that sum plus one character per line after the first. *)
Theorem format_context_budget (snippets : list Message) (max_chars : Z) (s : string) :
  format_context snippets max_chars = Ok s ->
  exists lines,
    mapM render_line (take (length lines) snippets) = Ok lines /\
    s = join nl lines /\
    (lines <> [] -> (total_len lines <= max_chars)%Z) /\
    (forall line, stopping_line snippets max_chars 0 = Some line ->
                  (max_chars < total_len lines + len line)%Z) /\
    (stopping_line snippets max_chars 0 = None -> length lines = length snippets) /\
    len s = (total_len lines + Z.max 0 (Z.of_nat (length lines) - 1))%Z.
Proof.
  unfold format_context. intros H.
  destruct (format_loop snippets max_chars [] 0) as [out|e] eqn:Hloop; [|done].
  simpl in H. injection H as <-.
  apply format_loop_spec in Hloop as (more & -> & Hmore & Hsum & Hstop & Hend).
  exists more. simpl. split_and!; try done.
  apply len_join.
Qed.

Lemma format_context_budget_witness :
  exists lines,
    mapM render_line (take (length lines) [short_snippet]) = Ok lines /\
    "- A | 1 | 1: ok" = join nl lines /\
    (lines <> [] -> (total_len lines <= 8000)%Z) /\
    (forall line, stopping_line [short_snippet] 8000 0 = Some line ->
                  (8000 < total_len lines + len line)%Z) /\
    (stopping_line [short_snippet] 8000 0 = None -> length lines = 1) /\
    len "- A | 1 | 1: ok" = (total_len lines + Z.max 0 (Z.of_nat (length lines) - 1))%Z.
Proof.
  apply (format_context_budget [short_snippet] 8000 "- A | 1 | 1: ok").
  vm_compute. reflexivity.
Defined.

(** C5, as stated, fails: with a budget of 255 characters and eighteen
    snippets whose lines have 15 characters each, seventeen lines are kept;
    the context is 271 characters long, more than 255 plus the 15 of the
    line that stopped the loop. *)
Lemma format_context_exceeds_budget_and_a_line :
  ~ within_budget_and_a_line short_snippets 255.
Proof.
  intros H.
  destruct (format_context short_snippets 255) as [s|e] eqn:Hs;
    [|by vm_compute in Hs].
  pose proof (H s Hs) as Hbound.
  vm_compute in Hs. injection Hs as <-.
  vm_compute in Hbound. by apply Hbound.
Qed.

Section Sequences.

Context {A : Type}.

Lemma index_in_range (l : list A) (i : Z) :
  (0 <= i < Z.of_nat (length l))%Z ->
  exists x, index l i = Ok x /\ l !! Z.to_nat i = Some x.
Proof.
  intros Hi. unfold index.
  destruct (i <? 0)%Z eqn:Hneg; [lia|].
  destruct (_ || _) eqn:Hout; [lia|].
  destruct (l !! Z.to_nat i) as [x|] eqn:Hnth.
  - by exists x.
  - apply lookup_ge_None in Hnth. lia.
Qed.

Lemma index_elem_of (l : list A) (i : Z) (x : A) :
  index l i = Ok x -> x ∈ l.
Proof.
  unfold index. destruct (_ || _); [done|].
  destruct (l !! _) as [y|] eqn:Hnth; [|done].
  intros [= <-]. by eapply list_elem_of_lookup_2.
Qed.

Lemma slice_to_nonneg (k : Z) (l : list A) :
  (0 <= k)%Z -> slice_to k l = take (Z.to_nat k) l.
Proof. intros Hk. unfold slice_to. destruct (k <? 0)%Z eqn:E; [lia|done]. Qed.

Lemma slice_to_subseteq (k : Z) (l : list A) x : x ∈ slice_to k l -> x ∈ l.
Proof.
  unfold slice_to. destruct (k <? 0)%Z; apply subseteq_take.
Qed.

Lemma slice_to_length (k : Z) (l : list A) :
  (0 <= k)%Z -> (Z.of_nat (length (slice_to k l)) <= k)%Z.
Proof.
  intros Hk. rewrite slice_to_nonneg by done. rewrite length_take. lia.
Qed.

Lemma slice_to_nonempty (k : Z) (l : list A) :
  (1 <= k)%Z -> l <> [] -> 1 <= length (slice_to k l).
Proof.
  intros Hk Hl. rewrite slice_to_nonneg by lia. rewrite length_take.
  destruct l; [done|]. simpl. lia.
Qed.

End Sequences.

Section Retrieval.

Variable corpus : list (string * Message).

(** When the indices are in range the ranking loop returns, with members
    of the corpus only, and with nothing exactly when no result scores 40
    or more. *)
Lemma rank_results_spec results :
  indices_in_range (length corpus) results ->
  exists ranked,
    rank_results corpus results = Ok ranked /\
    (forall m, m ∈ ranked -> m ∈ map snd corpus) /\
    (ranked = [] <->
     Forall (fun r : string * Q * Z => Qle_bool (40 # 1) r.1.2 = false) results).
Proof.
  induction 1 as [|[[choice score] idx] results Hidx _ IH]; simpl.
  { exists []. split_and!; [done| |done]. intros m Hm. by apply elem_of_nil in Hm. }
  destruct IH as (ranked & Hrank & Hmem & Hnil).
  destruct (Qle_bool (40 # 1) score) eqn:Hscore.
  - destruct (index_in_range corpus idx Hidx) as (c & Hc & _).
    rewrite Hc, Hrank. simpl. exists (c.2 :: ranked). split_and!; [done| |].
    + intros m [->|Hm]%elem_of_cons; [|by apply Hmem].
      apply list_elem_of_In, in_map, list_elem_of_In.
      by eapply index_elem_of.
    + split; [done|]. intros Hall. apply Forall_cons in Hall as [Hlow _].
      simpl in Hlow. congruence.
  - exists ranked. split_and!; [done..|]. rewrite Hnil. split.
    + intros Hall. by apply Forall_cons.
    + intros Hall. by apply Forall_cons in Hall as [_ ?].
Qed.

End Retrieval.

Lemma slice_to_map {A B : Type} (f : A -> B) (k : Z) (l : list A) :
  slice_to k (map f l) = map f (slice_to k l).
Proof.
  unfold slice_to. rewrite length_map. destruct (k <? 0)%Z; apply firstn_map.
Qed.

(** The body of [retrieve_top] past the emptiness test. *)
Lemma retrieve_top_nonempty (extract : Extractor) (messages : list Message)
    (question : string) (k : Z) :
  messages <> [] ->
  retrieve_top extract messages question k =
  (ranked ← rank_results (map (fun m => (_msg_text m, m)) messages)
              (extracted extract messages question k);
   Ok (slice_to k match ranked with
                  | [] => slice_to k messages
                  | _ => ranked
                  end)).
Proof.
  intros Hne. unfold retrieve_top, extracted.
  destruct messages as [|m0 ms]; [done|].
  rewrite slice_to_map, !map_map, length_map. simpl.
  by rewrite map_id.
Qed.

(** C6.  On an empty message list [retrieve_top] returns the empty sequence.
    On a non-empty list, for [k] at least 1 and an extractor whose indices
    point into its choices, it returns at least one and at most [k]
    messages, all of them elements of the input; when no extracted result
    scores 40 or more these are the first [k] messages in their original
    order. *)
Theorem retrieve_top_bounds (extract : Extractor) (messages : list Message)
    (question : string) (k : Z) :
  retrieve_top extract [] question k = Ok [] /\
  ((1 <= k)%Z ->
   messages <> [] ->
   indices_in_range (length messages) (extracted extract messages question k) ->
   exists ranked,
     retrieve_top extract messages question k = Ok ranked /\
     1 <= length ranked /\
     (Z.of_nat (length ranked) <= k)%Z /\
     (forall m, m ∈ ranked -> m ∈ messages) /\
     (Forall (fun r : string * Q * Z => Qle_bool (40 # 1) r.1.2 = false)
        (extracted extract messages question k) ->
      ranked = take (Z.to_nat k) messages)).
Proof.
  split; [done|]. intros Hk Hne Hidx.
  rewrite retrieve_top_nonempty by done.
  set (corpus := map (fun m => (_msg_text m, m)) messages) in *.
  assert (Hsnd : map snd corpus = messages).
  { unfold corpus. rewrite map_map. simpl. apply map_id. }
  destruct (rank_results_spec corpus (extracted extract messages question k))
    as (ranked & Hrank & Hmem & Hnil).
  { unfold corpus. by rewrite length_map. }
  rewrite Hrank. simpl. eexists. split; [reflexivity|].
  destruct ranked as [|r ranked].
  - assert (Hfall : slice_to k (slice_to k messages) = take (Z.to_nat k) messages).
    { rewrite !slice_to_nonneg by lia. rewrite take_take. by rewrite Nat.min_id. }
    rewrite Hfall. rewrite <- slice_to_nonneg by lia. split_and!.
    + by apply slice_to_nonempty.
    + apply slice_to_length. lia.
    + apply slice_to_subseteq.
    + done.
  - split_and!.
    + by apply slice_to_nonempty.
    + apply slice_to_length. lia.
    + intros m Hm%slice_to_subseteq. rewrite <- Hsnd. by apply Hmem.
    + intros Hlow. apply Hnil in Hlow. done.
Qed.

Lemma retrieve_top_bounds_witness :
  retrieve_top substring_extract [] "table" 24 = Ok [] /\
  exists ranked,
    retrieve_top substring_extract two_messages "table" 24 = Ok ranked /\
    1 <= length ranked /\
    (Z.of_nat (length ranked) <= 24)%Z /\
    (forall m, m ∈ ranked -> m ∈ two_messages) /\
    (Forall (fun r : string * Q * Z => Qle_bool (40 # 1) r.1.2 = false)
       (extracted substring_extract two_messages "table" 24) ->
     ranked = take (Z.to_nat 24) two_messages).
Proof.
  destruct (retrieve_top_bounds substring_extract two_messages "table" 24)
    as [Hempty Hfull].
  split; [exact Hempty|]. apply Hfull.
  - lia.
  - discriminate.
  - vm_compute. repeat constructor; discriminate.
Defined.

(** * Properties of [app/analysis.py] *)

(** Membership in the impossible-timestamp set, read off the loop. *)
Lemma impossible_times_elem_of (date_parse : DateParser) (now_year : Z)
    (messages : list Message) (m : Message) :
  m ∈ impossible_times date_parse now_year messages <->
  m ∈ messages /\
  exists ts dt,
    m_timestamp m = Str ts /\ ts <> EmptyString /\
    date_parse ts = Some dt /\ (now_year + 2 < dt_year dt)%Z.
Proof.
  unfold impossible_times. rewrite !list_elem_of_In, filter_In.
  unfold is_impossible_time, date_parse_value, truthy.
  split.
  - intros [Hin Himp]. split; [done|].
    destruct (m_timestamp m) as [| |ts]; simpl in Himp; try done.
    destruct (String.eqb ts "") eqn:Hts; simpl in Himp; [done|].
    destruct (date_parse ts) as [dt|] eqn:Hdt; [|done].
    exists ts, dt. split_and!; [done| |done|lia].
    intros ->. by rewrite String.eqb_refl in Hts.
  - intros [Hin (ts & dt & Hfield & Hne & Hdt & Hyear)]. split; [done|].
    rewrite Hfield. simpl.
    destruct (String.eqb ts "") eqn:Hts.
    { apply String.eqb_eq in Hts. done. }
    simpl. rewrite Hdt. lia.
Qed.

(** A timestamp that is present but does not parse keeps its message out
    of the impossible-timestamp set. *)
Lemma impossible_times_skips_malformed (date_parse : DateParser) (now_year : Z)
    (messages : list Message) (m : Message) (ts : string) :
  m_timestamp m = Str ts -> date_parse ts = None ->
  m ∉ impossible_times date_parse now_year messages.
Proof.
  intros Hfield Hnone
    [_ (ts' & dt & Hfield' & _ & Hdt & _)]%impossible_times_elem_of.
  congruence.
Qed.

(** C9.  A message is in the impossible-timestamp set exactly when it is a
    message of the input whose timestamp is present (bound to a non-empty
    string, the test the scan uses for presence), parses, and parses to a
    year strictly greater than the current year plus 2.  A message whose
    timestamp is absent, or present but unparseable, is never in it. *)
Theorem impossible_times_exact (date_parse : DateParser) (now_year : Z)
    (messages : list Message) (m : Message) :
  (m ∈ impossible_times date_parse now_year messages <->
   m ∈ messages /\
   exists ts dt,
     m_timestamp m = Str ts /\ ts <> EmptyString /\
     date_parse ts = Some dt /\ (now_year + 2 < dt_year dt)%Z) /\
  (has_timestamp m = false ->
   m ∉ impossible_times date_parse now_year messages) /\
  (forall ts, m_timestamp m = Str ts -> date_parse ts = None ->
   m ∉ impossible_times date_parse now_year messages).
Proof.
  split_and!.
  - apply impossible_times_elem_of.
  - intros Hno [_ (ts & dt & Hfield & Hne & _)]%impossible_times_elem_of.
    unfold has_timestamp in Hno. rewrite Hfield in Hno. simpl in Hno.
    apply negb_false_iff, String.eqb_eq in Hno. done.
  - intros ts. apply impossible_times_skips_malformed.
Qed.

Section Duplicates.

Variable messages : list Message.

Local Abbreviation text_map_ok := (text_map_invariant messages).

Lemma text_map_add_ok text_map m text_map' :
  m ∈ messages ->
  text_map_ok text_map ->
  text_map_add text_map m = Ok text_map' ->
  text_map_ok text_map'.
Proof.
  intros Hm Hok. unfold text_map_add, text_map_invariant. simpl.
  destruct (String.eqb (trimmed_text m) "") eqn:Hempty; simpl.
  { by intros [= <-]. }
  destruct (subscript (m_id m)) as [i|e] eqn:Hid; simpl; [|done].
  intros [= <-] txt ids. rewrite lookup_insert.
  case_decide as Hkey.
  - intros [= <-]. subst txt. split.
    + intros Heq. rewrite Heq in Hempty. done.
    + apply Forall_app. split.
      * destruct (text_map !! trimmed_text m) as [old|] eqn:Hold; simpl; [|done].
        by apply Hok in Hold as [_ ?].
      * apply Forall_singleton. by exists m.
  - apply Hok.
Qed.

Lemma fill_text_map_ok rest : forall text_map text_map',
  (forall m, m ∈ rest -> m ∈ messages) ->
  text_map_ok text_map ->
  fill_text_map rest text_map = Ok text_map' ->
  text_map_ok text_map'.
Proof.
  induction rest as [|m rest IH]; intros text_map text_map' Hsub Hok; simpl.
  { by intros [= <-]. }
  destruct (text_map_add text_map m) as [tm|e] eqn:Hadd; simpl; [|done].
  apply IH.
  - intros m' Hm'. apply Hsub. by right.
  - eapply text_map_add_ok; [|done..]. apply Hsub. by left.
Qed.

End Duplicates.

(** C8.  Every key of the duplicate mapping is the non-empty trimmed text of
    a message, its group lists at least 2 ids, and every id listed is the id
    of a message of the input whose trimmed text equals the key. *)
Theorem duplicate_msgs_sound (messages : list Message)
    (duplicates : gmap string (list pyval)) (txt : string) (ids : list pyval) :
  duplicate_msgs messages = Ok duplicates ->
  duplicates !! txt = Some ids ->
  txt <> EmptyString /\
  (exists m, m ∈ messages /\ txt = strip (or_empty (get (m_text m)))) /\
  2 <= length ids /\
  Forall (id_of_text messages txt) ids.
Proof.
  unfold duplicate_msgs.
  destruct (fill_text_map messages ∅) as [text_map|e] eqn:Hfill; simpl; [|done].
  intros [= <-] [Hlook Hlen]%map_lookup_filter_Some. simpl in Hlen.
  eapply fill_text_map_ok in Hfill; [|done|].
  - destruct (Hfill txt ids Hlook) as [Hne Hids]. split_and!; [done| |lia|done].
    destruct ids as [|i ids]; [simpl in Hlen; lia|].
    apply Forall_cons in Hids as [(m & Hm & _ & Htxt) _].
    exists m. by split.
  - intros txt' ids'. by rewrite lookup_empty.
Qed.

Lemma duplicate_msgs_sound_witness :
  "hello" <> EmptyString /\
  (exists m, m ∈ greetings /\ "hello" = strip (or_empty (get (m_text m)))) /\
  2 <= length [Some "1"; Some "2"] /\
  Forall (id_of_text greetings "hello") [Some "1"; Some "2"].
Proof.
  destruct (duplicate_msgs greetings) as [duplicates|e] eqn:Hdup;
    [|by vm_compute in Hdup].
  apply (duplicate_msgs_sound greetings duplicates "hello" [Some "1"; Some "2"] Hdup).
  vm_compute in Hdup. injection Hdup as <-. by vm_compute.
Defined.

Section Underspecified.

Variable api_key : pyval.
Variable completion : Completion.
Variable json_loads : JsonParser.

Lemma map_indices_selected candidate_msgs indices :
  map_indices candidate_msgs indices = Ok (omap (selected candidate_msgs) indices).
Proof.
  induction indices as [|j indices IH]; [done|].
  simpl. unfold selected at 1.
  destruct (int_instance j) as [i|]; [|done].
  destruct (_ && _) eqn:Hrange; [|done].
  destruct (index_in_range candidate_msgs (i - 1)) as (m & Hm & Hlook); [lia|].
  rewrite Hm, IH, Hlook. done.
Qed.

(** The filter returns, with a sublist of the messages, unless a text is
    [None]. *)
Lemma filter_candidates_returns messages :
  texts_not_null messages ->
  exists found,
    filter_candidates messages = Ok found /\
    found ⊆ messages /\ texts_not_null found.
Proof.
  induction 1 as [|m messages Hm _ (found & Hfound & Hsub & Htexts)].
  { exists []. split_and!; [done|done|constructor]. }
  simpl. unfold is_action_request at 1.
  assert (Hkeep : texts_not_null (m :: found)) by by constructor.
  destruct (m_text m) as [| |t]; [|done|]; simpl; rewrite Hfound; simpl.
  - exists found. split_and!; [done| |done].
    intros x Hx. right. by apply Hsub.
  - match goal with |- context [if ?b then _ else _] => destruct b end.
    + exists (m :: found). split_and!; [done| |done].
      intros x [->|Hx]%elem_of_cons; [by left|right; by apply Hsub].
    + exists found. split_and!; [done| |done].
      intros x Hx. right. by apply Hsub.
Qed.

Lemma listing_lines_returns candidate_msgs : forall idx,
  texts_not_null candidate_msgs ->
  exists lines, listing_lines idx candidate_msgs = Ok lines.
Proof.
  induction candidate_msgs as [|m rest IH]; intros idx Htexts; [by exists []|].
  apply Forall_cons in Htexts as [Hm Hrest].
  destruct (IH (S idx) Hrest) as (ls & Hls). simpl. rewrite Hls.
  destruct (m_text m); [|done|]; simpl; eauto.
Qed.

Lemma texts_not_null_slice_to k messages :
  texts_not_null messages -> texts_not_null (slice_to k messages).
Proof.
  unfold texts_not_null, slice_to. destruct (k <? 0)%Z; apply Forall_take.
Qed.

(** Past the credential test and the filter, the result is that of the
    [try] block, any exception replaced by the empty list. *)
Lemma detect_underspecified_reached messages max_examples :
  truthy api_key = true ->
  texts_not_null messages ->
  exists found joined,
    filter_candidates messages = Ok found /\
    detect_underspecified_requests_gpt api_key completion json_loads
      messages max_examples =
    match found with
    | [] => Ok []
    | _ => match classify completion json_loads (slice_to max_examples found) joined with
           | Ok underspecified_msgs => Ok underspecified_msgs
           | Raise _ => Ok []
           end
    end.
Proof.
  intros Hkey Htexts.
  destruct (filter_candidates_returns messages Htexts) as (found & Hfound & _ & Hft).
  destruct (listing_lines_returns (slice_to max_examples found) 1) as (lines & Hlines).
  { by apply texts_not_null_slice_to. }
  exists found, (join nl lines). split; [done|].
  unfold detect_underspecified_requests_gpt. rewrite Hkey, Hfound. simpl.
  destruct found; [done|]. by rewrite Hlines.
Qed.

(** Without a credential nothing is attempted. *)
Lemma detect_underspecified_no_credential messages max_examples :
  truthy api_key = false ->
  detect_underspecified_requests_gpt api_key completion json_loads
    messages max_examples = Ok [].
Proof.
  intros Hkey. unfold detect_underspecified_requests_gpt. by rewrite Hkey.
Qed.

(** A reply that is no JSON, or JSON but no array, gives the empty list. *)
Lemma detect_underspecified_fail_soft messages max_examples reply :
  truthy api_key = true ->
  texts_not_null messages ->
  (forall sys usr, completion sys usr = Some reply) ->
  (forall indices, json_loads (strip reply) <> Some (JArr indices)) ->
  detect_underspecified_requests_gpt api_key completion json_loads
    messages max_examples = Ok [].
Proof.
  intros Hkey Htexts Hreply Hnot.
  destruct (detect_underspecified_reached messages max_examples Hkey Htexts)
    as (found & joined & _ & ->).
  destruct found; [done|]. unfold classify. rewrite Hreply.
  destruct (json_loads (strip reply)) as [[| | | | |indices|]|]; try done.
  by destruct (Hnot indices).
Qed.

(** A reply that is a JSON array gives, entry by entry, the candidates the
    entries stand for. *)
Lemma detect_underspecified_array messages max_examples reply indices :
  truthy api_key = true ->
  texts_not_null messages ->
  (forall sys usr, completion sys usr = Some reply) ->
  json_loads (strip reply) = Some (JArr indices) ->
  exists found,
    filter_candidates messages = Ok found /\
    detect_underspecified_requests_gpt api_key completion json_loads
      messages max_examples =
    Ok (omap (selected (slice_to max_examples found)) indices).
Proof.
  intros Hkey Htexts Hreply Hjson.
  destruct (detect_underspecified_reached messages max_examples Hkey Htexts)
    as (found & joined & Hfound & ->).
  exists found. split; [done|].
  destruct found as [|m found].
  - assert (Hnone : forall j, selected (slice_to max_examples []) j = None).
    { intros j. unfold selected. destruct (int_instance j) as [i|]; [|done].
      destruct (_ && _) eqn:Hrange; [|done].
      unfold slice_to in Hrange.
      destruct (max_examples <? 0)%Z; rewrite take_nil in Hrange;
        apply andb_true_iff in Hrange as [H1 H2];
        apply Z.leb_le in H1, H2; simpl in H2; lia. }
    f_equal. clear Hjson. induction indices as [|j indices IH]; [done|].
    simpl. by rewrite Hnone.
  - unfold classify. rewrite Hreply, Hjson. by rewrite map_indices_selected.
Qed.

End Underspecified.

(** C10.  When the reply is a JSON array, the returned sequence has one
    message per entry standing for a candidate, in the order of the entries
    and without deduplication: a valid index occurring [n] times puts its
    candidate [n] times in the result. *)
Theorem detect_underspecified_keeps_repeats (api_key : pyval)
    (completion : Completion) (json_loads : JsonParser)
    (messages : list Message) (max_examples : Z) (reply : string)
    (indices : list json) :
  truthy api_key = true ->
  texts_not_null messages ->
  (forall sys usr, completion sys usr = Some reply) ->
  json_loads (strip reply) = Some (JArr indices) ->
  exists found,
    filter_candidates messages = Ok found /\
    detect_underspecified_requests_gpt api_key completion json_loads
      messages max_examples =
    Ok (omap (selected (slice_to max_examples found)) indices) /\
    forall (i : Z) (m : Message) (n : nat),
      (1 <= i <= Z.of_nat (length (slice_to max_examples found)))%Z ->
      slice_to max_examples found !! Z.to_nat (i - 1) = Some m ->
      indices = repeat (JInt i) n ->
      detect_underspecified_requests_gpt api_key completion json_loads
        messages max_examples = Ok (repeat m n).
Proof.
  intros Hkey Htexts Hreply Hjson.
  destruct (detect_underspecified_array api_key completion json_loads
              messages max_examples reply indices Hkey Htexts Hreply Hjson)
    as (found & Hfound & Hres).
  exists found. split_and!; [done..|].
  intros i m n Hi Hm ->. rewrite Hres. f_equal.
  assert (Hsel : selected (slice_to max_examples found) (JInt i) = Some m).
  { unfold selected. simpl. destruct (_ && _) eqn:Hrange; [done|].
    apply andb_false_iff in Hrange as [H|H]; apply Z.leb_gt in H; lia. }
  clear Hjson Hres. induction n as [|n IH]; [done|].
  cbn [repeat]. change (omap ?f (?x :: ?l)) with
    (match f x with Some y => y :: omap f l | None => omap f l end).
  by rewrite Hsel, IH.
Qed.

Lemma detect_underspecified_keeps_repeats_witness :
  exists found,
    filter_candidates [table_request; jet_request] = Ok found /\
    detect_underspecified_requests_gpt (Some "sk-test") (replying "[2, 2]")
      json_flat [table_request; jet_request] 80 =
    Ok (omap (selected (slice_to 80 found)) [JInt 2; JInt 2]) /\
    forall (i : Z) (m : Message) (n : nat),
      (1 <= i <= Z.of_nat (length (slice_to 80 found)))%Z ->
      slice_to 80 found !! Z.to_nat (i - 1) = Some m ->
      [JInt 2; JInt 2] = repeat (JInt i) n ->
      detect_underspecified_requests_gpt (Some "sk-test") (replying "[2, 2]")
        json_flat [table_request; jet_request] 80 = Ok (repeat m n).
Proof.
  apply (detect_underspecified_keeps_repeats (Some "sk-test") (replying "[2, 2]")
           json_flat [table_request; jet_request] 80 "[2, 2]" [JInt 2; JInt 2]).
  - reflexivity.
  - repeat constructor; discriminate.
  - reflexivity.
  - vm_compute. reflexivity.
Defined.

(** The index 2 sent twice returns the second candidate twice. *)
Example detect_underspecified_twice :
  detect_underspecified_requests_gpt (Some "sk-test") (replying "[2, 2]")
    json_flat [table_request; jet_request] 80 = Ok [jet_request; jet_request].
Proof. vm_compute. reflexivity. Qed.

(** C7, where the code departs from it.  An entry [true] of the returned
    array is not an integer, yet it passes [isinstance(i, int)] and the
    range test as the index 1: with one candidate and the reply [[true]]
    the classifier returns that candidate instead of ignoring the entry. *)
Theorem detect_underspecified_counts_true (api_key : pyval)
    (completion : Completion) (json_loads : JsonParser)
    (m : Message) (reply : string) :
  truthy api_key = true ->
  is_action_request m = Ok true ->
  (forall sys usr, completion sys usr = Some reply) ->
  json_loads (strip reply) = Some (JArr [JBool true]) ->
  detect_underspecified_requests_gpt api_key completion json_loads [m] 80
  = Ok [m].
Proof.
  intros Hkey Haction Hreply Hjson.
  assert (Htexts : texts_not_null [m]).
  { constructor; [|constructor]. unfold is_action_request in Haction.
    intros Hnull. by rewrite Hnull in Haction. }
  destruct (detect_underspecified_array api_key completion json_loads
              [m] 80 reply [JBool true] Hkey Htexts Hreply Hjson)
    as (found & Hfound & ->).
  simpl in Hfound. rewrite Haction in Hfound. simpl in Hfound.
  by injection Hfound as <-.
Qed.

Lemma detect_underspecified_counts_true_witness :
  detect_underspecified_requests_gpt (Some "sk-test") (replying "[true]")
    json_flat [jet_request] 80 = Ok [jet_request].
Proof.
  apply (detect_underspecified_counts_true (Some "sk-test") (replying "[true]")
           json_flat jet_request "[true]").
  - reflexivity.
  - vm_compute. reflexivity.
  - reflexivity.
  - vm_compute. reflexivity.
Defined.

Section Grouping.

Lemma user_messages_snoc user seen m :
  user_messages user (seen ++ [m]) =
  user_messages user seen ++ (if decide (user_of m = user) then [m] else []).
Proof.
  unfold user_messages. rewrite filter_app. f_equal.
Qed.

Lemma by_user_append_keys user m by_user :
  map fst (by_user_append user m by_user) =
  if decide (user ∈ map fst by_user)
  then map fst by_user
  else map fst by_user ++ [user].
Proof.
  induction by_user as [|[u ms] rest IH]; simpl.
  { done. }
  destruct (decide (u = user)) as [->|Hne]; simpl.
  - rewrite decide_True; [done|]. apply elem_of_cons. by left.
  - rewrite IH. destruct (decide (user ∈ map fst rest)) as [H1|H1].
    + rewrite decide_True; [done|]. apply elem_of_cons. by right.
    + rewrite decide_False; [done|]. intros [->|H2]%elem_of_cons; done.
Qed.

(** An entry after [by_user[user].append(m)] is an old entry of another
    user, or the entry of [user] with [m] at its end. *)
Lemma by_user_append_entries user m by_user u msgs :
  NoDup (map fst by_user) ->
  (u, msgs) ∈ by_user_append user m by_user ->
  (u <> user /\ (u, msgs) ∈ by_user) \/
  (u = user /\
   exists old, msgs = old ++ [m] /\
     ((user, old) ∈ by_user \/ (old = [] /\ user ∉ map fst by_user))).
Proof.
  induction by_user as [|[k v] rest IH]; simpl; intros Hnd Hin.
  { apply list_elem_of_singleton in Hin as [= -> ->]. right. split; [done|].
    exists []. split; [done|]. right. split; [done|]. apply not_elem_of_nil. }
  apply NoDup_cons in Hnd as [Hk Hnd].
  destruct (decide (k = user)) as [->|Hne].
  - apply elem_of_cons in Hin as [[= -> ->]|Hin].
    + right. split; [done|]. exists v. split; [done|]. left. by left.
    + destruct (decide (u = user)) as [->|Hu].
      * destruct Hk. apply list_elem_of_In, in_map_iff.
        exists (user, msgs). split; [done|]. by apply list_elem_of_In.
      * left. split; [done|]. by right.
  - apply elem_of_cons in Hin as [[= -> ->]|Hin].
    + left. split; [done|]. by left.
    + destruct (IH Hnd Hin) as [[Hu Hold]|[-> (old & -> & Hold)]].
      * left. split; [done|]. by right.
      * right. split; [done|]. exists old. split; [done|].
        destruct Hold as [Hold|[-> Hnot]]; [left; by right|].
        right. split; [done|]. intros [?|?]%elem_of_cons; done.
Qed.

Lemma by_user_append_grouped seen by_user m :
  grouped seen by_user ->
  grouped (seen ++ [m]) (by_user_append (user_of m) m by_user).
Proof.
  intros (Hnd & Hexact & Hcover). split_and!.
  - rewrite by_user_append_keys. case_decide as Hin; [done|].
    rewrite Permutation_app_comm. simpl. by apply NoDup_cons.
  - intros u msgs Hin. rewrite user_messages_snoc.
    apply by_user_append_entries in Hin
      as [[Hu Hold]|[-> (old & -> & Hold)]]; [| |done].
    + case_decide; [done|]. rewrite app_nil_r. by apply Hexact.
    + case_decide; [|done]. f_equal.
      destruct Hold as [Hold|[-> Hnot]]; [by apply Hexact|].
      destruct (user_messages (user_of m) seen) as [|m' l] eqn:E; [done|].
      assert (Hm' : m' ∈ user_messages (user_of m) seen) by (rewrite E; by left).
      apply list_elem_of_filter in Hm' as [Huser Hm'].
      destruct Hnot. rewrite <- Huser. by apply Hcover.
  - intros m' Hm'. rewrite by_user_append_keys.
    apply elem_of_app in Hm' as [Hm'|Hm'%list_elem_of_singleton].
    + case_decide; [by apply Hcover|]. apply elem_of_app. left. by apply Hcover.
    + subst m'. case_decide; [done|]. apply elem_of_app. right. by left.
Qed.

Lemma fold_by_user_grouped rest : forall seen by_user,
  grouped seen by_user ->
  grouped (seen ++ rest)
    (fold_left (fun by_user m => by_user_append (user_of m) m by_user) rest by_user).
Proof.
  induction rest as [|m rest IH]; intros seen by_user Hg; simpl.
  { by rewrite app_nil_r. }
  replace (seen ++ m :: rest) with ((seen ++ [m]) ++ rest)
    by (by rewrite <- app_assoc).
  apply IH. by apply by_user_append_grouped.
Qed.

(** The groups have distinct users, hold each user's messages in their
    original order, and cover every message. *)
Lemma group_by_user_grouped messages : grouped messages (group_by_user messages).
Proof.
  apply (fold_by_user_grouped messages [] []). split_and!.
  - constructor.
  - intros user msgs Hin. by apply elem_of_nil in Hin.
  - intros m Hm. by apply elem_of_nil in Hm.
Qed.

End Grouping.

Section Sorting.

Context {A : Type} (lt : A -> A -> bool).

Lemma insert_by_perm x l : insert_by lt x l ≡ₚ x :: l.
Proof.
  induction l as [|y l IH]; simpl; [done|].
  destruct (lt y x); [|done]. rewrite IH. apply Permutation_swap.
Qed.

(** Sorting rearranges and loses nothing. *)
Lemma stable_sort_perm l : stable_sort lt l ≡ₚ l.
Proof.
  induction l as [|x l IH]; simpl; [done|].
  rewrite insert_by_perm. by rewrite IH.
Qed.

End Sorting.

Section Sortedness.

Context {A : Type} (lt : A -> A -> bool) (le : A -> A -> Prop).
Hypothesis lt_le : forall a b, lt a b = true -> le a b.
Hypothesis not_lt_le : forall a b, lt a b = false -> le b a.
Hypothesis le_trans : forall a b c, le a b -> le b c -> le a c.

Lemma insert_by_sorted x l :
  StronglySorted le l -> StronglySorted le (insert_by lt x l).
Proof.
  induction 1 as [|y l Hl IH Hy]; simpl.
  { repeat constructor. }
  destruct (lt y x) eqn:Hlt.
  - constructor; [done|].
    rewrite insert_by_perm. constructor; [by apply lt_le|done].
  - constructor; [by constructor|].
    constructor; [by apply not_lt_le|].
    eapply Forall_impl; [exact Hy|]. intros z Hz.
    eapply le_trans; [|exact Hz]. by apply not_lt_le.
Qed.

Lemma stable_sort_sorted l : StronglySorted le (stable_sort lt l).
Proof.
  induction l as [|x l IH]; simpl; [constructor|]. by apply insert_by_sorted.
Qed.

End Sortedness.

(** What the code sorts by: the raw timestamp strings, compared character
    by character. *)
Lemma sort_by_timestamp_sorted msgs :
  StronglySorted (fun a b => String.le (timestamp_key a) (timestamp_key b))
    (sort_by_timestamp msgs) /\
  sort_by_timestamp msgs ≡ₚ msgs.
Proof.
  split; [|apply stable_sort_perm].
  apply stable_sort_sorted.
  - intros a b. unfold String.ltb, String.le, String.leb.
    destruct (String.compare (timestamp_key a) (timestamp_key b)); done.
  - intros a b. unfold String.ltb, String.le, String.leb.
    rewrite (String.compare_antisym (timestamp_key a) (timestamp_key b)).
    destruct (String.compare (timestamp_key b) (timestamp_key a)); simpl; done.
  - intros a b c. apply (transitivity (R := String.le)).
Qed.

Section Comprehensions.

Context {A B : Type} (f : A -> result B).

Lemma mapM_Forall2 l l' :
  mapM f l = Ok l' -> Forall2 (fun x y => f x = Ok y) l l'.
Proof.
  revert l'. induction l as [|x l IH]; intros l'; simpl.
  { intros [= <-]. constructor. }
  destruct (f x) as [y|e] eqn:Hy; simpl; [|done].
  destruct (mapM f l) as [ys|e]; simpl; [|done].
  intros [= <-]. constructor; [done|]. by apply IH.
Qed.

(** One element on which the expression raises makes the comprehension
    raise. *)
Lemma mapM_raises l x e :
  x ∈ l -> f x = Raise e -> exists e', mapM f l = Raise e'.
Proof.
  intros Hx Hfx. induction l as [|y l IH]; [by apply elem_of_nil in Hx|].
  simpl. apply elem_of_cons in Hx as [<-|Hx].
  - rewrite Hfx. simpl. eauto.
  - destruct (f y); simpl; [|eauto].
    destruct (IH Hx) as [e' ->]. simpl. eauto.
Qed.

(** One subscript read on two lists of the same length reads the same
    position. *)
Lemma index_Forall2 (R : A -> B -> Prop) l l' i x y :
  Forall2 R l l' -> index l i = Ok x -> index l' i = Ok y -> R x y.
Proof.
  intros HR. unfold index. rewrite <- (Forall2_length _ _ _ HR).
  destruct (_ || _); [done|].
  destruct (l !! _) as [x'|] eqn:Hx; [|done].
  destruct (l' !! _) as [y'|] eqn:Hy; [|done].
  intros [= <-] [= <-]. eapply Forall2_lookup_lr; eauto.
Qed.

End Comprehensions.

Lemma elem_of_range (n i : Z) : i ∈ range n -> (0 <= i < n)%Z.
Proof.
  unfold range. intros Hi.
  apply list_elem_of_In, in_map_iff in Hi as (j & <- & Hj).
  apply in_seq in Hj. lia.
Qed.

(** ** The float number of seconds *)

Section Rounding.

Local Open Scope Z_scope.

Lemma round_half_even_lower n d k :
  0 < d -> k * d <= n -> k <= round_half_even n d.
Proof.
  intros Hd Hk. unfold round_half_even.
  assert (Hq : k <= n / d) by (apply Z.div_le_lower_bound; lia).
  repeat case_match; lia.
Qed.

Lemma round_half_even_upper n d k :
  0 < d -> n <= k * d -> round_half_even n d <= k.
Proof.
  intros Hd Hk. unfold round_half_even.
  pose proof (Z.div_mod n d ltac:(lia)) as Hdm.
  pose proof (Z.mod_pos_bound n d Hd) as Hr.
  assert (Hq : n / d <= k).
  { apply Z.div_le_upper_bound; lia. }
  destruct (Z.eq_dec (n / d) k) as [Heq|Hne].
  - assert (n mod d = 0) by nia.
    destruct (2 * (n mod d) <? d) eqn:Hhalf; lia.
  - repeat case_match; lia.
Qed.

Lemma round_half_even_above n d k :
  0 < d -> (2 * k + 1) * d < 2 * n -> k + 1 <= round_half_even n d.
Proof.
  intros Hd Hk. unfold round_half_even.
  pose proof (Z.div_mod n d ltac:(lia)) as Hdm.
  pose proof (Z.mod_pos_bound n d Hd) as Hr.
  assert (Hq : k <= n / d) by (apply Z.div_le_lower_bound; nia).
  destruct (Z.eq_dec (n / d) k) as [Heq|Hne].
  - assert (d < 2 * (n mod d)) by nia.
    destruct (2 * (n mod d) <? d) eqn:H1; [lia|].
    destruct (d <? 2 * (n mod d)) eqn:H2; lia.
  - repeat case_match; lia.
Qed.

Lemma round_half_even_below n d k :
  0 < d -> 2 * n < (2 * k - 1) * d -> round_half_even n d <= k - 1.
Proof.
  intros Hd Hk. unfold round_half_even.
  pose proof (Z.div_mod n d ltac:(lia)) as Hdm.
  pose proof (Z.mod_pos_bound n d Hd) as Hr.
  assert (Hq : n / d <= k - 1).
  { assert (n / d < k); [|lia]. apply Z.div_lt_upper_bound; nia. }
  destruct (Z.eq_dec (n / d) (k - 1)) as [Heq|Hne].
  - assert (2 * (n mod d) < d) by nia.
    destruct (2 * (n mod d) <? d) eqn:H1; lia.
  - repeat case_match; lia.
Qed.

(** The binade is not above the quotient. *)
Lemma binade_lower n d :
  0 < n -> 0 < d -> scaled_le d (binade n d) n = true.
Proof.
  intros Hn Hd. unfold binade.
  destruct (scaled_le d (Z.log2 n - Z.log2 d) n) eqn:Htest; [done|].
  destruct (Z.log2_spec n Hn) as [Ha _].
  destruct (Z.log2_spec d Hd) as [_ Hb].
  pose proof (Z.log2_nonneg n) as Han. pose proof (Z.log2_nonneg d) as Hbn.
  set (a := Z.log2 n) in *. set (b := Z.log2 d) in *.
  unfold scaled_le. destruct (0 <=? a - b - 1) eqn:Hsign.
  - apply Z.leb_le.
    assert (Hpow : 2 ^ a = 2 ^ (a - b - 1) * 2 ^ (b + 1)).
    { rewrite <- Z.pow_add_r by lia. f_equal. lia. }
    assert (0 < 2 ^ (a - b - 1)) by (apply Z.pow_pos_nonneg; lia).
    replace (Z.succ b) with (b + 1) in Hb by lia. nia.
  - apply Z.leb_le.
    assert (Hpow : 2 ^ (b + 1) = 2 ^ a * 2 ^ (- (a - b - 1))).
    { rewrite <- Z.pow_add_r by lia. f_equal. lia. }
    assert (0 < 2 ^ (- (a - b - 1))) by (apply Z.pow_pos_nonneg; lia).
    replace (Z.succ b) with (b + 1) in Hb by lia. nia.
Qed.

(** The mantissa of a rounded positive quotient has at least 53 bits. *)
Lemma round_positive_mantissa n d :
  0 < n -> 0 < d -> 2 ^ 52 <= mantissa (round_positive n d).
Proof.
  intros Hn Hd. pose proof (binade_lower n d Hn Hd) as Hlow.
  unfold round_positive. cbn [mantissa].
  set (e := binade n d) in *. unfold scaled_le in Hlow.
  destruct (0 <=? e - 52) eqn:Hs.
  - destruct (0 <=? e) eqn:He; [|lia]. apply Z.leb_le in Hlow.
    assert (0 < 2 ^ (e - 52)) by (apply Z.pow_pos_nonneg; lia).
    apply round_half_even_lower; [lia|].
    assert (Hpow : 2 ^ e = 2 ^ 52 * 2 ^ (e - 52)).
    { rewrite <- Z.pow_add_r by lia. f_equal. lia. }
    nia.
  - assert (0 < 2 ^ (- (e - 52))) by (apply Z.pow_pos_nonneg; lia).
    apply round_half_even_lower; [lia|].
    destruct (0 <=? e) eqn:He; apply Z.leb_le in Hlow.
    + assert (Hpow : 2 ^ 52 = 2 ^ e * 2 ^ (- (e - 52))).
      { rewrite <- Z.pow_add_r by lia. f_equal. lia. }
      assert (0 < 2 ^ e) by (apply Z.pow_pos_nonneg; lia). nia.
    + assert (Hpow : 2 ^ (- (e - 52)) = 2 ^ 52 * 2 ^ (- e)).
      { rewrite <- Z.pow_add_r by lia. f_equal. lia. }
      nia.
Qed.

(** A quotient below [2 ^ 34] is rounded on a grid finer than [2 ^ -18]. *)
Lemma round_positive_exponent n d :
  0 < n -> 0 < d -> n < 2 ^ 34 * d -> exponent (round_positive n d) <= -19.
Proof.
  intros Hn Hd Hsmall. pose proof (binade_lower n d Hn Hd) as Hlow.
  unfold round_positive. cbn [exponent].
  set (e := binade n d) in *. unfold scaled_le in Hlow.
  destruct (Z.le_gt_cases e 33) as [?|Hbig]; [lia|].
  destruct (0 <=? e) eqn:He; [|lia]. apply Z.leb_le in Hlow.
  assert (Hpow : 2 ^ e = 2 ^ 34 * 2 ^ (e - 34)).
  { rewrite <- Z.pow_add_r by lia. f_equal. lia. }
  assert (0 < 2 ^ (e - 34)) by (apply Z.pow_pos_nonneg; lia). nia.
Qed.

(** Against a positive integer below [2 ^ 34], the rounded quotient of a
    positive number of microseconds compares as the exact one. *)
Lemma round_positive_le n w :
  0 < n -> 0 < w < 2 ^ 34 ->
  float_le_int (round_positive n 1000000) w = true <-> n <= w * 1000000.
Proof.
  intros Hn Hw.
  pose proof (round_positive_mantissa n 1000000 Hn ltac:(lia)) as Hm.
  unfold float_le_int.
  destruct (Z.le_gt_cases n (w * 1000000)) as [Hle|Hgt].
  - pose proof (round_positive_exponent n 1000000 Hn ltac:(lia) ltac:(lia)) as Hs.
    split; [done|]. intros _.
    destruct (0 <=? exponent (round_positive n 1000000)) eqn:Hsign; [lia|].
    apply Z.leb_le. unfold round_positive in *. cbn [mantissa exponent] in *.
    rewrite Hsign. apply round_half_even_upper; [lia|].
    assert (0 < 2 ^ (- (binade n 1000000 - 52))) by (apply Z.pow_pos_nonneg; lia).
    nia.
  - split; [|lia]. intros Hle. exfalso.
    destruct (0 <=? exponent (round_positive n 1000000)) eqn:Hsign.
    + apply Z.leb_le in Hle.
      assert (1 <= 2 ^ exponent (round_positive n 1000000)).
      { assert (0 < 2 ^ exponent (round_positive n 1000000))
          by (apply Z.pow_pos_nonneg; lia). lia. }
      assert (2 ^ 34 < 2 ^ 52) by (by vm_compute). nia.
    + apply Z.leb_le in Hle. unfold round_positive in *.
      cbn [mantissa exponent] in *. rewrite Hsign in *.
      set (t := - (binade n 1000000 - 52)) in *.
      assert (Ht : 0 < t) by lia.
      destruct (Z.le_gt_cases 19 t) as [Hfine|Hcoarse].
      * assert (Hpow : 2 ^ t = 2 ^ 19 * 2 ^ (t - 19)).
        { rewrite <- Z.pow_add_r by lia. f_equal. lia. }
        assert (0 < 2 ^ (t - 19)) by (apply Z.pow_pos_nonneg; lia).
        assert (H19 : 2 ^ 19 = 524288) by (by vm_compute).
        assert (w * 2 ^ t + 1 <= round_half_even (n * 2 ^ t) 1000000); [|lia].
        apply round_half_even_above; [lia|]. nia.
      * assert (Hpow : 2 ^ 18 = 2 ^ t * 2 ^ (18 - t)).
        { rewrite <- Z.pow_add_r by lia. f_equal. lia. }
        assert (0 < 2 ^ (18 - t)) by (apply Z.pow_pos_nonneg; lia).
        assert (0 < 2 ^ t) by (apply Z.pow_pos_nonneg; lia).
        assert (H52 : 2 ^ 52 = 2 ^ 34 * 2 ^ 18) by (by vm_compute).
        nia.
Qed.

(** Against an integer at least as large as a positive number of seconds
    below [2 ^ 34], the comparison is again the exact one. *)
Lemma round_positive_ge n v :
  0 < n -> 0 < v < 2 ^ 34 ->
  float_le_int
    {| mantissa := - mantissa (round_positive n 1000000);
       exponent := exponent (round_positive n 1000000) |} (- v) = true
  <-> v * 1000000 <= n.
Proof.
  intros Hn Hv.
  pose proof (round_positive_mantissa n 1000000 Hn ltac:(lia)) as Hm.
  unfold float_le_int. cbn [mantissa exponent].
  destruct (Z.le_gt_cases (v * 1000000) n) as [Hle|Hgt].
  - split; [done|]. intros _.
    destruct (0 <=? exponent (round_positive n 1000000)) eqn:Hsign.
    + apply Z.leb_le.
      assert (1 <= 2 ^ exponent (round_positive n 1000000)).
      { assert (0 < 2 ^ exponent (round_positive n 1000000))
          by (apply Z.pow_pos_nonneg; lia). lia. }
      assert (2 ^ 34 < 2 ^ 52) by (by vm_compute). nia.
    + apply Z.leb_le. unfold round_positive in *.
      cbn [mantissa exponent] in *. rewrite Hsign in *.
      set (t := - (binade n 1000000 - 52)) in *.
      assert (0 < 2 ^ t) by (apply Z.pow_pos_nonneg; lia).
      assert (v * 2 ^ t <= round_half_even (n * 2 ^ t) 1000000); [|lia].
      apply round_half_even_lower; [lia|]. nia.
  - pose proof (round_positive_exponent n 1000000 Hn ltac:(lia) ltac:(lia)) as Hs.
    split; [|lia]. intros Hle. exfalso.
    destruct (0 <=? exponent (round_positive n 1000000)) eqn:Hsign; [lia|].
    apply Z.leb_le in Hle. unfold round_positive in *.
    cbn [mantissa exponent] in *. rewrite Hsign in *.
    set (t := - (binade n 1000000 - 52)) in *.
    assert (Hpow : 2 ^ t = 2 ^ 19 * 2 ^ (t - 19)).
    { rewrite <- Z.pow_add_r by lia. f_equal. lia. }
    assert (0 < 2 ^ (t - 19)) by (apply Z.pow_pos_nonneg; lia).
    assert (H19 : 2 ^ 19 = 524288) by (by vm_compute).
    assert (round_half_even (n * 2 ^ t) 1000000 <= v * 2 ^ t - 1); [|lia].
    apply round_half_even_below; [lia|]. nia.
Qed.

(** For a window below [2 ^ 34] seconds in absolute value, comparing the
    float number of seconds with the window is comparing the microseconds
    exactly. *)
Lemma total_seconds_le delta w :
  - 2 ^ 34 < w < 2 ^ 34 ->
  float_le_int (total_seconds delta) w = true <-> delta <= w * 1000000.
Proof.
  intros Hw. unfold total_seconds, true_divide.
  destruct (delta =? 0) eqn:Hzero.
  { apply Z.eqb_eq in Hzero. subst delta. unfold float_le_int. simpl.
    rewrite Z.leb_le. lia. }
  apply Z.eqb_neq in Hzero. destruct (0 <? delta) eqn:Hpos.
  - apply Z.ltb_lt in Hpos. destruct (Z.le_gt_cases w 0) as [Hneg|Hwpos].
    + pose proof (round_positive_mantissa delta 1000000 Hpos ltac:(lia)) as Hm.
      split; [|lia]. unfold float_le_int.
      destruct (0 <=? exponent (round_positive delta 1000000)) eqn:Hsign;
        intros Hle; apply Z.leb_le in Hle; exfalso.
      * assert (0 < 2 ^ exponent (round_positive delta 1000000))
          by (apply Z.pow_pos_nonneg; lia). nia.
      * assert (0 < 2 ^ (- exponent (round_positive delta 1000000)))
          by (apply Z.pow_pos_nonneg; lia). nia.
    + apply round_positive_le; lia.
  - apply Z.ltb_ge in Hpos. assert (Hn : 0 < - delta) by lia.
    destruct (Z.le_gt_cases 0 w) as [Hwpos|Hneg].
    + pose proof (round_positive_mantissa (- delta) 1000000 Hn ltac:(lia)) as Hm.
      split; [lia|]. intros _. unfold float_le_int. cbn [mantissa exponent].
      destruct (0 <=? exponent (round_positive (- delta) 1000000)) eqn:Hsign;
        apply Z.leb_le.
      * assert (0 < 2 ^ exponent (round_positive (- delta) 1000000))
          by (apply Z.pow_pos_nonneg; lia). nia.
      * assert (0 < 2 ^ (- exponent (round_positive (- delta) 1000000)))
          by (apply Z.pow_pos_nonneg; lia). nia.
    + replace w with (- (- w)) at 1 by lia.
      rewrite (round_positive_ge (- delta) (- w)) by lia. lia.
Qed.

End Rounding.

(** The quotients against the doubles Python prints for them: [1e-06],
    [1.5] and [-50.0]. *)
Example total_seconds_microsecond :
  total_seconds 1 = {| mantissa := 4722366482869645; exponent := -72 |}.
Proof. vm_compute. reflexivity. Qed.

Example total_seconds_one_and_a_half :
  total_seconds 1500000 = {| mantissa := 3 * 2 ^ 51; exponent := -52 |}.
Proof. vm_compute. reflexivity. Qed.

Example total_seconds_negative :
  total_seconds (-50000000) = {| mantissa := - (25 * 2 ^ 48); exponent := -47 |}.
Proof. vm_compute. reflexivity. Qed.

(** The bound [2 ^ 34] of [total_seconds_le] is sharp: at a window of
    [2 ^ 34] seconds one microsecond more is rounded away. *)
Example within_seconds_at_bound :
  within_seconds (2 ^ 34 * 1000000 + 1) (2 ^ 34) = true.
Proof. vm_compute. reflexivity. Qed.

Section Bursts.

Variable date_parse : DateParser.
Variables threshold_count window : Z.

(** A hit of the sliding loop is the first position of the range whose
    window fits, and the record is the one built there. *)
Lemma sliding_window_hit user valid_msgs times positions b :
  sliding_window user valid_msgs times threshold_count window positions
    = Ok (Some b) ->
  exists before i after,
    positions = before ++ i :: after /\
    Forall (fun j => window_fits times threshold_count window j = Ok false) before /\
    window_fits times threshold_count window i = Ok true /\
    burst_at user valid_msgs threshold_count i = Ok b.
Proof.
  induction positions as [|i rest IH]; simpl; [done|].
  destruct (window_fits times threshold_count window i) as [[|]|e] eqn:Hfit;
    simpl; [| |done].
  - destruct (burst_at user valid_msgs threshold_count i) as [b'|e] eqn:Hb;
      simpl; [|done].
    intros [= <-]. exists [], i, rest. by split_and!.
  - intros (before & i' & after & -> & Hbefore & Hfit' & Hb)%IH.
    exists (i :: before), i', after. split_and!; [done| |done..].
    by constructor.
Qed.

(** What a record emitted for one user says. *)
Lemma scan_user_sound user msgs b :
  scan_user date_parse threshold_count window user msgs = Ok (Some b) ->
  b_user b = user /\
  b_count b = threshold_count /\
  (exists s e ds de,
     b_start b = Some s /\ b_end b = Some e /\
     date_parse s = Some ds /\ date_parse e = Some de /\
     within_seconds (dt_micros de - dt_micros ds) window = true) /\
  (threshold_count <= Z.of_nat (length (List.filter has_timestamp msgs)))%Z.
Proof.
  unfold scan_user.
  destruct (List.filter has_timestamp msgs) as [|m0 valid] eqn:Hvalid; [done|].
  set (valid_msgs := sort_by_timestamp (m0 :: valid)).
  destruct (mapM _ valid_msgs) as [times|e] eqn:Htimes; simpl; [|done].
  apply mapM_Forall2 in Htimes.
  intros (before & i & after & Hpos & _ & Hfit & Hb)%sliding_window_hit.
  assert (Hi : i ∈ range (Z.of_nat (length times) - threshold_count + 1)).
  { rewrite Hpos. apply elem_of_app. right. by left. }
  apply elem_of_range in Hi.
  assert (Hlen : length times = length (m0 :: valid)).
  { rewrite <- (Forall2_length _ _ _ Htimes). unfold valid_msgs, sort_by_timestamp.
    by rewrite stable_sort_perm. }
  unfold window_fits in Hfit. unfold burst_at in Hb.
  destruct (index times i) as [start|] eqn:Hstart; simpl in Hfit; [|done].
  destruct (index times (i + threshold_count - 1)) as [end_|] eqn:Hend;
    simpl in Hfit; [|done].
  destruct (sub_datetime end_ start) as [delta|] eqn:Hsub; simpl in Hfit; [|done].
  destruct (index valid_msgs i) as [first|] eqn:Hfirst; simpl in Hb; [|done].
  destruct (subscript (m_timestamp first)) as [s|] eqn:Hs; simpl in Hb; [|done].
  destruct (index valid_msgs (i + threshold_count - 1)) as [last|] eqn:Hlast;
    simpl in Hb; [|done].
  destruct (subscript (m_timestamp last)) as [e|] eqn:He; simpl in Hb; [|done].
  injection Hb as <-. injection Hfit as Hfit. simpl.
  pose proof (index_Forall2 _ _ _ _ _ _ Htimes Hfirst Hstart) as Hps.
  pose proof (index_Forall2 _ _ _ _ _ _ Htimes Hlast Hend) as Hpe.
  simpl in Hps, Hpe. rewrite Hs in Hps. rewrite He in Hpe. simpl in Hps, Hpe.
  unfold date_parse_value in Hps, Hpe.
  destruct s as [s|]; [|done]. destruct e as [e|]; [|done].
  destruct (date_parse s) as [ds|] eqn:Hds; [|done].
  destruct (date_parse e) as [de|] eqn:Hde; [|done].
  injection Hps as ->. injection Hpe as ->.
  unfold sub_datetime in Hsub. destruct (Bool.eqb _ _); [|done].
  injection Hsub as <-.
  simpl in Hlen. split_and!; [done|done| |lia].
  exists s, e, start, end_. by split_and!.
Qed.

(** The records of [scan_users] come one per entry at most, in the order
    of the entries. *)
Lemma scan_users_sound by_user : forall bursts,
  scan_users date_parse threshold_count window by_user = Ok bursts ->
  sublist (map b_user bursts) (map fst by_user) /\
  Forall (fun b => exists msgs,
            (b_user b, msgs) ∈ by_user /\
            scan_user date_parse threshold_count window (b_user b) msgs
              = Ok (Some b)) bursts.
Proof.
  induction by_user as [|[user msgs] rest IH]; intros bursts; simpl.
  { intros [= <-]. split; constructor. }
  destruct (scan_user _ _ _ user msgs) as [found|e] eqn:Hscan; simpl; [|done].
  destruct (scan_users _ _ _ rest) as [bs|e] eqn:Hrest; simpl; [|done].
  intros [= <-]. destruct (IH bs eq_refl) as [Hsub Hall].
  assert (Hall' : Forall (fun b => exists msgs0,
            (b_user b, msgs0) ∈ (user, msgs) :: rest /\
            scan_user date_parse threshold_count window (b_user b) msgs0
              = Ok (Some b)) bs).
  { eapply Forall_impl; [exact Hall|]. intros b (msgs0 & Hin & Hb).
    exists msgs0. split; [by right|done]. }
  destruct found as [b|].
  - destruct (scan_user_sound user msgs b Hscan) as (Hu & _).
    split.
    + simpl. rewrite Hu. by apply sublist_skip.
    + constructor; [|done]. exists msgs. rewrite Hu. split; [by left|done].
  - split; [|done]. by apply sublist_cons.
Qed.

End Bursts.

(** C3.  [detect_burst_messages] emits at most one record per user; every
    record has [count] equal to [threshold_count], the float number of
    seconds [total_seconds()] of its end timestamp minus its start timestamp
    is at most [window_seconds], so that the exact difference is at most
    [window_seconds] whenever [window_seconds] is below [2 ^ 34] in absolute
    value, and its user has at least [threshold_count] messages with a
    timestamp present. *)
Theorem detect_burst_messages_sound (date_parse : DateParser)
    (messages : list Message) (threshold_count window_seconds : Z)
    (bursts : list Burst) :
  detect_burst_messages date_parse messages threshold_count window_seconds
    = Ok bursts ->
  NoDup (map b_user bursts) /\
  Forall (burst_ok date_parse messages threshold_count window_seconds) bursts.
Proof.
  unfold detect_burst_messages. intros Hscan.
  destruct (group_by_user_grouped messages) as (Hnd & Hexact & _).
  apply scan_users_sound in Hscan as [Hsub Hall]. split.
  - eapply sublist_NoDup; eauto.
  - eapply Forall_impl; [exact Hall|]. intros b (msgs & Hin & Hb).
    apply scan_user_sound in Hb as (_ & Hcount & Hspan & Hmany).
    apply Hexact in Hin. subst msgs.
    destruct Hspan as (s & e & ds & de & Hs & He & Hds & Hde & Hfit).
    split_and!; [done| |done].
    exists s, e, ds, de. split_and!; try done.
    intros Hwindow. by apply total_seconds_le.
Qed.

Lemma detect_burst_messages_sound_witness :
  NoDup (map b_user
           [{| b_user := Some "Ann"; b_count := 5;
               b_start := Some "2024-01-01T10:00:00";
               b_end := Some "2024-01-01T10:00:20" |}]) /\
  Forall (burst_ok iso_parse busy_day 5 30)
    [{| b_user := Some "Ann"; b_count := 5;
        b_start := Some "2024-01-01T10:00:00";
        b_end := Some "2024-01-01T10:00:20" |}].
Proof.
  apply (detect_burst_messages_sound iso_parse busy_day 5 30).
  vm_compute. reflexivity.
Defined.

(** C3, the counterexample.  Two messages of one user [10 ^ 11] seconds and
    one microsecond apart, a threshold of 2 and a window of [10 ^ 11]
    seconds: the float number of seconds of the span is [10 ^ 11] exactly,
    the microsecond being rounded away, and a record is emitted whose
    timestamps are more than the window apart. *)
Example far_apart_run :
  detect_burst_messages iso_parse_micros far_apart 2 100000000000
  = Ok [{| b_user := Some "Ann"; b_count := 2;
           b_start := Some "2000-01-01T00:00:00";
           b_end := Some "5168-11-15T09:46:40.000001" |}].
Proof. by vm_compute. Qed.

Example far_apart_span :
  (ds ← iso_parse_micros "2000-01-01T00:00:00";
   de ← iso_parse_micros "5168-11-15T09:46:40.000001";
   Some (dt_micros de - dt_micros ds)%Z)
  = Some (100000000000 * 1000000 + 1)%Z.
Proof. vm_compute. reflexivity. Qed.

Example far_apart_seconds :
  total_seconds (100000000000 * 1000000 + 1)
  = {| mantissa := 100000000000 * 2 ^ 16; exponent := -16 |}.
Proof. vm_compute. reflexivity. Qed.

Lemma detect_burst_messages_span_exceeds_window :
  ~ span_within_window iso_parse_micros far_apart 2 100000000000.
Proof.
  intros Hspan.
  specialize (Hspan _ ltac:(by vm_compute)).
  apply Forall_cons in Hspan as [(s & e & ds & de & Hs & He & Hds & Hde & Hle) _].
  simpl in Hs, He. injection Hs as <-. injection He as <-.
  vm_compute in Hds, Hde. injection Hds as <-. injection Hde as <-.
  by vm_compute in Hle.
Qed.

Section MalformedTimestamps.

Variable date_parse : DateParser.
Variables threshold_count window : Z.

Lemma scan_users_raises by_user user msgs e :
  (user, msgs) ∈ by_user ->
  scan_user date_parse threshold_count window user msgs = Raise e ->
  exists e', scan_users date_parse threshold_count window by_user = Raise e'.
Proof.
  intros Hin Hraise. induction by_user as [|[u ms] rest IH].
  { by apply elem_of_nil in Hin. }
  simpl. apply elem_of_cons in Hin as [[= <- <-]|Hin].
  - rewrite Hraise. simpl. eauto.
  - destruct (scan_user _ _ _ u ms); simpl; [|eauto].
    destruct (IH Hin) as [e' ->]. simpl. eauto.
Qed.

(** A group holding a message whose timestamp is present and does not
    parse makes its scan raise: nothing catches the parser's exception. *)
Lemma scan_user_raises user msgs m ts :
  m ∈ msgs ->
  m_timestamp m = Str ts -> ts <> EmptyString -> date_parse ts = None ->
  exists e, scan_user date_parse threshold_count window user msgs = Raise e.
Proof.
  intros Hm Hts Hne Hnone. unfold scan_user.
  assert (Hvalid : m ∈ List.filter has_timestamp msgs).
  { apply list_elem_of_In, filter_In. split; [by apply list_elem_of_In|].
    unfold has_timestamp. rewrite Hts. simpl.
    apply negb_true_iff, String.eqb_neq. done. }
  destruct (List.filter has_timestamp msgs) as [|m0 valid];
    [by apply elem_of_nil in Hvalid|].
  assert (Hsorted : m ∈ sort_by_timestamp (m0 :: valid)).
  { unfold sort_by_timestamp. by rewrite stable_sort_perm. }
  destruct (mapM_raises
              (fun m => (v ← subscript (m_timestamp m);
                         date_parse_value date_parse v))
              _ m ParserError Hsorted) as [e' He'].
  { rewrite Hts. simpl. by rewrite Hnone. }
  rewrite He'. simpl. eauto.
Qed.

End MalformedTimestamps.

(** C2, where the code departs from it.  A message whose timestamp is
    present but unparseable is skipped by the impossible-timestamp check,
    but burst detection parses it outside any [try]: whatever the other
    messages, thresholds and collaborators, [detect_burst_messages] raises,
    and so does the scan of [main]. *)
Theorem malformed_timestamp_aborts_scan (env : Env) (messages : list Message)
    (threshold_count window : Z) (m : Message) (ts : string) :
  m ∈ messages ->
  m_timestamp m = Str ts -> ts <> EmptyString ->
  env_date_parse env ts = None ->
  (m ∉ impossible_times (env_date_parse env) (env_now_year env) messages) /\
  (exists e, detect_burst_messages (env_date_parse env) messages
               threshold_count window = Raise e) /\
  (exists e, main env messages = Raise e).
Proof.
  intros Hm Hts Hne Hnone.
  assert (Hburst : forall tc w, exists e,
    detect_burst_messages (env_date_parse env) messages tc w = Raise e).
  { intros tc w. unfold detect_burst_messages.
    destruct (group_by_user_grouped messages) as (_ & Hexact & Hcover).
    pose proof (Hcover m Hm) as Hkey.
    apply list_elem_of_In, in_map_iff in Hkey.
    destruct Hkey as ([user msgs] & Huser & Hin%list_elem_of_In).
    simpl in Huser. subst user.
    pose proof (Hexact _ _ Hin) as Hmsgs.
    destruct (scan_user_raises (env_date_parse env) tc w (user_of m) msgs m ts)
      as [e He]; try done.
    { rewrite Hmsgs. apply list_elem_of_filter. by split. }
    by eapply scan_users_raises. }
  split_and!.
  - by apply impossible_times_skips_malformed with ts.
  - apply Hburst.
  - unfold main.
    destruct (mapM _ messages) as [lengths|e]; simpl; [|eauto].
    destruct (duplicate_msgs messages) as [duplicates|e]; simpl; [|eauto].
    destruct (Hburst 5%Z 30%Z) as [e ->]. simpl. eauto.
Qed.

Lemma malformed_timestamp_aborts_scan_witness :
  (stamped "Ann" "next tuesday-ish" ∉
     impossible_times iso_parse 2024 [stamped "Ann" "next tuesday-ish"]) /\
  (exists e, detect_burst_messages iso_parse [stamped "Ann" "next tuesday-ish"]
               5 30 = Raise e) /\
  (exists e, main (offline iso_parse) [stamped "Ann" "next tuesday-ish"] = Raise e).
Proof.
  apply (malformed_timestamp_aborts_scan (offline iso_parse)
           [stamped "Ann" "next tuesday-ish"] 5 30
           (stamped "Ann" "next tuesday-ish") "next tuesday-ish").
  - by left.
  - reflexivity.
  - discriminate.
  - reflexivity.
Defined.

(** The same input, run: the check of [main] skips the message and burst
    detection raises the parser's exception. *)
Example malformed_timestamp_run :
  impossible_times iso_parse 2024 [stamped "Ann" "next tuesday-ish"] = [] /\
  detect_burst_messages iso_parse [stamped "Ann" "next tuesday-ish"] 5 30
    = Raise ParserError /\
  main (offline iso_parse) [stamped "Ann" "next tuesday-ish"] = Raise ParserError.
Proof. vm_compute. done. Qed.

(** C4, where the code departs from it.  The messages of a user are sorted
    by the raw timestamp string, not by the parsed instant.  Of two messages
    sent 50 seconds apart, the later written with a space where the earlier
    has a [T], the later sorts first; the only window then spans -50 seconds,
    which is at most 30, and a burst is recorded, whereas in chronological
    order the window spans 50 seconds and nothing is. *)
Theorem burst_window_in_raw_string_order (date_parse : DateParser)
    (early late : DateTime) :
  date_parse "2024-01-01T00:00:00" = Some early ->
  date_parse "2024-01-01 00:00:50" = Some late ->
  dt_aware early = dt_aware late ->
  (dt_micros late - dt_micros early = 50000000)%Z ->
  sort_by_timestamp out_of_order =
    [stamped "Ann" "2024-01-01 00:00:50"; stamped "Ann" "2024-01-01T00:00:00"] /\
  detect_burst_messages date_parse out_of_order 2 30 =
    Ok [{| b_user := Some "Ann"; b_count := 2;
           b_start := Some "2024-01-01 00:00:50";
           b_end := Some "2024-01-01T00:00:00" |}] /\
  spec_detect_burst date_parse out_of_order 2 30 = Ok [].
Proof.
  intros Hearly Hlate Haware Hspan.
  assert (Hgroups : group_by_user out_of_order = [(Some "Ann", out_of_order)])
    by (by vm_compute).
  assert (Hsort :
    sort_by_timestamp
      [stamped "Ann" "2024-01-01T00:00:00"; stamped "Ann" "2024-01-01 00:00:50"] =
    [stamped "Ann" "2024-01-01 00:00:50"; stamped "Ann" "2024-01-01T00:00:00"])
    by (by vm_compute).
  split; [exact Hsort|]. split.
  - unfold detect_burst_messages. rewrite Hgroups.
    cbn [scan_users]. unfold scan_user, out_of_order.
    cbn [List.filter has_timestamp stamped m_timestamp get truthy String.eqb
         Ascii.eqb negb].
    fold (stamped "Ann" "2024-01-01T00:00:00").
    fold (stamped "Ann" "2024-01-01 00:00:50").
    rewrite Hsort.
    cbn [mapM stamped m_timestamp subscript mbind result_bind date_parse_value].
    rewrite Hearly, Hlate.
    cbn [mbind result_bind length].
    replace (range _) with [0%Z] by (by vm_compute).
    cbn [sliding_window]. unfold window_fits.
    replace (index [late; early] 0) with (Ok late) by (by vm_compute).
    replace (index [late; early] (0 + 2 - 1)) with (Ok early) by (by vm_compute).
    cbn [mbind result_bind]. unfold sub_datetime. rewrite Haware, eqb_reflx.
    cbn [mbind result_bind]. unfold within_seconds.
    replace (dt_micros early - dt_micros late)%Z with (-50000000)%Z by lia.
    reflexivity.
  - unfold spec_detect_burst. rewrite Hgroups.
    cbn [spec_scan_users]. unfold spec_scan_user, parsed_messages, out_of_order.
    cbn [flat_map has_timestamp timestamp_key or_empty stamped m_timestamp get
         truthy String.eqb Ascii.eqb negb].
    rewrite Hearly, Hlate. cbn [app].
    unfold chronological, stable_sort. cbn [fold_right insert_by fst].
    assert (Hlt : (dt_micros late <? dt_micros early)%Z = false) by lia.
    rewrite Hlt. cbn [map fst snd length].
    replace (range _) with [0%Z] by (by vm_compute).
    cbn [sliding_window]. unfold window_fits.
    replace (index [early; late] 0) with (Ok early) by (by vm_compute).
    replace (index [early; late] (0 + 2 - 1)) with (Ok late) by (by vm_compute).
    cbn [mbind result_bind]. unfold sub_datetime.
    rewrite <- Haware, eqb_reflx.
    cbn [mbind result_bind]. unfold within_seconds.
    rewrite Hspan. reflexivity.
Qed.

Lemma burst_window_in_raw_string_order_witness :
  sort_by_timestamp out_of_order =
    [stamped "Ann" "2024-01-01 00:00:50"; stamped "Ann" "2024-01-01T00:00:00"] /\
  detect_burst_messages iso_parse out_of_order 2 30 =
    Ok [{| b_user := Some "Ann"; b_count := 2;
           b_start := Some "2024-01-01 00:00:50";
           b_end := Some "2024-01-01T00:00:00" |}] /\
  spec_detect_burst iso_parse out_of_order 2 30 = Ok [].
Proof.
  apply (burst_window_in_raw_string_order iso_parse
           {| dt_year := 2024; dt_aware := false; dt_micros := 1704067200000000 |}
           {| dt_year := 2024; dt_aware := false; dt_micros := 1704067250000000 |}).
  - vm_compute. reflexivity.
  - vm_compute. reflexivity.
  - reflexivity.
  - reflexivity.
Defined.

Section BurstsReturn.

Variable date_parse : DateParser.
Variables threshold_count window : Z.
Variable aware : bool.
Hypothesis threshold_positive : (1 <= threshold_count)%Z.

Lemma mapM_returns {A B : Type} (f : A -> result B) (l : list A) :
  Forall (fun x => exists y, f x = Ok y) l -> exists l', mapM f l = Ok l'.
Proof.
  induction 1 as [|x l [y Hy] _ [l' Hl']]; simpl; [by eexists|].
  rewrite Hy. simpl. rewrite Hl'. simpl. by eexists.
Qed.

Lemma sliding_window_returns user valid_msgs times positions :
  length valid_msgs = length times ->
  Forall (fun d => dt_aware d = aware) times ->
  Forall (fun m => exists ts, m_timestamp m = Str ts) valid_msgs ->
  Forall (fun i => 0 <= i /\ i + threshold_count - 1 < Z.of_nat (length times))%Z
    positions ->
  exists found,
    sliding_window user valid_msgs times threshold_count window positions
      = Ok found.
Proof.
  intros Hlen Haware Hstr. induction 1 as [|i rest [Hlo Hhi] _ IH]; simpl.
  { by eexists. }
  unfold window_fits.
  destruct (index_in_range times i) as (start & -> & Hs); [lia|].
  destruct (index_in_range times (i + threshold_count - 1)) as (end_ & -> & He);
    [lia|].
  simpl. unfold sub_datetime.
  rewrite Forall_forall in Haware.
  rewrite (Haware start), (Haware end_), eqb_reflx
    by (by eapply list_elem_of_lookup_2).
  simpl. destruct (within_seconds _ _); [|done].
  unfold burst_at.
  destruct (index_in_range valid_msgs i) as (first & -> & Hf); [lia|].
  destruct (index_in_range valid_msgs (i + threshold_count - 1))
    as (last & -> & Hl); [lia|].
  rewrite Forall_forall in Hstr.
  destruct (Hstr first) as [s Hfs]; [by eapply list_elem_of_lookup_2|].
  destruct (Hstr last) as [e Hle]; [by eapply list_elem_of_lookup_2|].
  cbn [mbind result_bind]. rewrite Hfs, Hle. simpl. by eexists.
Qed.

Lemma scan_user_returns user msgs :
  timestamps_parse date_parse aware msgs ->
  exists found, scan_user date_parse threshold_count window user msgs = Ok found.
Proof.
  intros Hparse. unfold scan_user.
  destruct (List.filter has_timestamp msgs) as [|m0 valid] eqn:Hvalid;
    [by eexists|].
  set (valid_msgs := sort_by_timestamp (m0 :: valid)).
  assert (Hwf : forall m, m ∈ valid_msgs ->
            exists ts d, m_timestamp m = Str ts /\
                         date_parse ts = Some d /\ dt_aware d = aware).
  { intros m Hm. unfold valid_msgs, sort_by_timestamp in Hm.
    rewrite stable_sort_perm, <- Hvalid in Hm.
    apply list_elem_of_In, filter_In in Hm as [Hm%list_elem_of_In Hts].
    unfold has_timestamp in Hts.
    destruct (m_timestamp m) as [| |ts] eqn:Hfield; try done. simpl in Hts.
    apply negb_true_iff, String.eqb_neq in Hts.
    destruct (Hparse m ts Hm Hfield Hts) as (d & Hd & Ha). by exists ts, d. }
  destruct (mapM_returns
              (fun m => (v ← subscript (m_timestamp m);
                         date_parse_value date_parse v)) valid_msgs)
    as [times Htimes].
  { apply Forall_forall. intros m (ts & d & -> & Hd & _)%Hwf.
    exists d. simpl. by rewrite Hd. }
  rewrite Htimes. simpl. apply mapM_Forall2 in Htimes.
  apply sliding_window_returns.
  - by eapply Forall2_length.
  - eapply Forall2_Forall_r; [exact Htimes|]. apply Forall_forall.
    intros m (ts & d & -> & Hd & Ha)%Hwf d'. simpl. rewrite Hd.
    by intros [= <-].
  - apply Forall_forall. intros m (ts & d & -> & _)%Hwf. by exists ts.
  - apply Forall_forall. intros i Hi%elem_of_range. lia.
Qed.

Lemma scan_users_returns by_user :
  Forall (fun entry => timestamps_parse date_parse aware entry.2) by_user ->
  exists bursts, scan_users date_parse threshold_count window by_user = Ok bursts.
Proof.
  induction 1 as [|[user msgs] rest Hmsgs _ [bursts Hrest]]; simpl.
  { by eexists. }
  destruct (scan_user_returns user msgs Hmsgs) as [found ->]. simpl.
  rewrite Hrest. simpl. by eexists.
Qed.

(** Burst detection returns when every timestamp present parses, to values
    that are all aware or all naive, and the threshold is at least 1. *)
Lemma detect_burst_messages_returns messages :
  timestamps_parse date_parse aware messages ->
  exists bursts,
    detect_burst_messages date_parse messages threshold_count window = Ok bursts.
Proof.
  intros Hparse. apply scan_users_returns, Forall_forall.
  intros [user msgs] Hin. simpl.
  destruct (group_by_user_grouped messages) as (_ & Hexact & _).
  apply Hexact in Hin. subst msgs.
  intros m ts Hm. apply Hparse.
  by apply list_elem_of_filter in Hm as [_ ?].
Qed.

End BurstsReturn.

(** * Further properties *)

Section Whitespace.

Lemma lstrip_no_leading s : starts_with_space (lstrip s) = false.
Proof.
  induction s as [|c s IH]; simpl; [done|].
  destruct (is_space c) eqn:Hc; [done|]. simpl. by rewrite Hc.
Qed.

Lemma lstrip_trimmed s : starts_with_space s = false -> lstrip s = s.
Proof. destruct s as [|c s]; simpl; [done|]. by intros ->. Qed.

Lemma rstrip_cons c s :
  rstrip (String c s) =
  match rstrip s with
  | EmptyString => if is_space c then EmptyString else String c EmptyString
  | r => String c r
  end.
Proof. reflexivity. Qed.

Lemma rstrip_idem s : rstrip (rstrip s) = rstrip s.
Proof.
  induction s as [|c s IH]; [done|].
  rewrite rstrip_cons. destruct (rstrip s) as [|a r] eqn:Hr.
  - destruct (is_space c) eqn:Hc; [done|]. simpl. by rewrite Hc.
  - rewrite rstrip_cons, IH. done.
Qed.

Lemma rstrip_no_trailing s : ends_with_space (rstrip s) = false.
Proof.
  induction s as [|c s IH]; [done|].
  rewrite rstrip_cons. destruct (rstrip s) as [|a r] eqn:Hr.
  - destruct (is_space c) eqn:Hc; [done|]. simpl. by rewrite Hc.
  - exact IH.
Qed.

Lemma rstrip_leading s :
  starts_with_space s = false -> starts_with_space (rstrip s) = false.
Proof.
  destruct s as [|c s]; [done|]. simpl. intros Hc.
  destruct (rstrip s); [by rewrite Hc|done].
Qed.

Lemma rstrip_leading_inv s :
  starts_with_space (rstrip s) = true -> starts_with_space s = true.
Proof.
  destruct s as [|c s]; [done|]. rewrite rstrip_cons.
  destruct (rstrip s); [|done]. by destruct (is_space c).
Qed.

Lemma single_spaced_cons c s :
  single_spaced (String c s) =
  (if is_space c then Ascii.eqb c " " && negb (starts_with_space s) else true)
  && single_spaced s.
Proof. reflexivity. Qed.

Lemma lstrip_single_spaced s : single_spaced s = true -> single_spaced (lstrip s) = true.
Proof.
  induction s as [|c s IH]; [done|]. simpl.
  destruct (is_space c) eqn:Hc; [|intros Hs; cbn [single_spaced]; by rewrite Hc].
  intros [_ Hs]%andb_true_iff. by apply IH.
Qed.

Lemma rstrip_single_spaced s : single_spaced s = true -> single_spaced (rstrip s) = true.
Proof.
  induction s as [|c s IH]; [done|].
  cbn [single_spaced]. intros [Hc Hs]%andb_true_iff.
  rewrite rstrip_cons. specialize (IH Hs).
  destruct (rstrip s) as [|a r] eqn:Hr.
  - destruct (is_space c) eqn:Hsp; [done|]. simpl. by rewrite Hsp.
  - rewrite single_spaced_cons, IH, andb_true_r.
    rewrite <- Hr. destruct (is_space c); [|done].
    apply andb_true_iff in Hc as [-> Hnext]. simpl.
    apply negb_true_iff. apply negb_true_iff in Hnext.
    destruct (starts_with_space (rstrip s)) eqn:Hlead; [|done].
    apply rstrip_leading_inv in Hlead. congruence.
Qed.

Lemma collapse_ws_from_leading s : starts_with_space (collapse_ws_from true s) = false.
Proof.
  induction s as [|c s IH]; [done|]. simpl.
  destruct (is_space c) eqn:Hc; [done|]. simpl. by rewrite Hc.
Qed.

Lemma collapse_ws_from_single_spaced s : forall in_run,
  single_spaced (collapse_ws_from in_run s) = true.
Proof.
  induction s as [|c s IH]; intros in_run; [done|]. simpl.
  destruct (is_space c) eqn:Hc.
  - destruct in_run; [done|]. cbn [single_spaced].
    rewrite IH, collapse_ws_from_leading. done.
  - cbn [single_spaced]. by rewrite Hc, IH.
Qed.

(** Stripping twice is stripping once, and what is stripped neither starts
    nor ends with whitespace. *)
Lemma strip_trimmed s :
  starts_with_space (strip s) = false /\
  ends_with_space (strip s) = false /\
  strip (strip s) = strip s.
Proof.
  unfold strip. split_and!.
  - apply rstrip_leading, lstrip_no_leading.
  - apply rstrip_no_trailing.
  - rewrite (lstrip_trimmed (rstrip (lstrip s))).
    + apply rstrip_idem.
    + apply rstrip_leading, lstrip_no_leading.
Qed.

End Whitespace.

Section ContextLines.

Lemma single_spaced_chars s :
  single_spaced s = true ->
  Forall (fun c => is_space c = true -> c = " "%char) (list_ascii_of_string s).
Proof.
  induction s as [|c s IH]; simpl; [constructor|].
  intros [Hc Hs]%andb_true_iff. constructor; [|by apply IH].
  intros Hsp. rewrite Hsp in Hc.
  apply andb_true_iff in Hc as [Hc _]. by apply Ascii.eqb_eq in Hc.
Qed.

Lemma render_line_length m line :
  render_line m = Ok line -> (10 <= len line)%Z.
Proof.
  unfold render_line. destruct (normalized_text m) as [txt|]; simpl; [|done].
  intros [= <-]. rewrite !len_append.
  pose proof (len_nonneg (str_of (get (m_member_name m)))).
  pose proof (len_nonneg (str_of (get (m_timestamp m)))).
  pose proof (len_nonneg (str_of (get (m_id m)))).
  pose proof (len_nonneg txt).
  change (len "- ") with 2%Z. change (len " | ") with 3%Z.
  change (len ": ") with 2%Z. lia.
Qed.

Lemma render_line_returns m :
  m_text m <> Null -> exists line, render_line m = Ok line.
Proof.
  intros Hm. unfold render_line, normalized_text.
  destruct (m_text m); [|done|]; simpl; by eexists.
Qed.

Lemma format_loop_returns snippets : forall max_chars lines used,
  texts_not_null snippets ->
  exists out, format_loop snippets max_chars lines used = Ok out.
Proof.
  induction snippets as [|m rest IH]; intros max_chars lines used Htexts; simpl.
  { by eexists. }
  apply Forall_cons in Htexts as [Hm Hrest].
  destruct (render_line_returns m Hm) as [line ->]. simpl.
  destruct (_ <? _)%Z; [by eexists|]. by apply IH.
Qed.

Lemma total_len_nonneg lines : (0 <= total_len lines)%Z.
Proof.
  induction lines as [|l lines IH]; simpl; [done|].
  pose proof (len_nonneg l). lia.
Qed.

(** Snippets whose lines fit the budget are all taken, and the loop goes on
    with what follows them. *)
Lemma format_loop_app front : forall back max_chars acc used lines,
  mapM render_line front = Ok lines ->
  (used + total_len lines <= max_chars)%Z ->
  format_loop (front ++ back) max_chars acc used =
  format_loop back max_chars (acc ++ lines) (used + total_len lines)%Z.
Proof.
  induction front as [|m rest IH]; intros back max_chars acc used lines; simpl.
  { intros [= <-] _. simpl. rewrite app_nil_r. f_equal. lia. }
  destruct (render_line m) as [line|] eqn:Hline; simpl; [|done].
  destruct (mapM render_line rest) as [more|] eqn:Hmore; simpl; [|done].
  intros [= <-] Hfit. simpl in Hfit.
  pose proof (total_len_nonneg more).
  destruct (max_chars <? used + len line)%Z eqn:Hcut; [lia|].
  rewrite (IH back max_chars (acc ++ [line]) (used + len line)%Z more);
    [|done|lia].
  rewrite <- app_assoc. simpl. f_equal. lia.
Qed.

End ContextLines.

(** The text of a rendered line is on one line: every whitespace character
    of it is a single space, none follows another, and none stands at
    either end. *)
Theorem normalized_text_single_spaced (m : Message) (txt : string) :
  normalized_text m = Ok txt ->
  single_spaced txt = true /\
  starts_with_space txt = false /\
  ends_with_space txt = false /\
  Forall (fun c => is_space c = true -> c = " "%char) (list_ascii_of_string txt).
Proof.
  unfold normalized_text. destruct (get_default (m_text m) "") as [t|]; [|done].
  intros [= <-].
  assert (Hss : single_spaced (strip (collapse_ws t)) = true).
  { apply rstrip_single_spaced, lstrip_single_spaced, collapse_ws_from_single_spaced. }
  destruct (strip_trimmed (collapse_ws t)) as (Hstart & Hend & _).
  split_and!; [done..|]. by apply single_spaced_chars.
Qed.

Lemma normalized_text_single_spaced_witness :
  single_spaced "two lines" = true /\
  starts_with_space "two lines" = false /\
  ends_with_space "two lines" = false /\
  Forall (fun c => is_space c = true -> c = " "%char)
    (list_ascii_of_string "two lines").
Proof.
  apply (normalized_text_single_spaced untidy_snippet "two lines").
  vm_compute. reflexivity.
Defined.

(** Every rendered line has at least the 10 characters of its separators,
    so a budget below 10 gives the empty context, whatever the snippets. *)
Theorem format_context_small_budget (snippets : list Message) (max_chars : Z) :
  (max_chars < 10)%Z ->
  texts_not_null snippets ->
  format_context snippets max_chars = Ok EmptyString.
Proof.
  intros Hsmall Htexts. unfold format_context.
  destruct snippets as [|m rest]; [done|]. simpl.
  apply Forall_cons in Htexts as [Hm _].
  destruct (render_line_returns m Hm) as [line Hline]. rewrite Hline. simpl.
  apply render_line_length in Hline.
  destruct (max_chars <? 0 + len line)%Z eqn:Hcut; [done|lia].
Qed.

Lemma format_context_small_budget_witness :
  format_context short_snippets 9 = Ok EmptyString.
Proof.
  apply (format_context_small_budget short_snippets 9).
  - lia.
  - repeat constructor; discriminate.
Defined.

(** [format_context] returns whenever no snippet has its text bound to
    [None]. *)
Theorem format_context_returns (snippets : list Message) (max_chars : Z) :
  texts_not_null snippets ->
  exists s, format_context snippets max_chars = Ok s.
Proof.
  intros Htexts. unfold format_context.
  destruct (format_loop_returns snippets max_chars [] 0%Z Htexts) as [out ->].
  simpl. by eexists.
Qed.

Lemma format_context_returns_witness :
  exists s, format_context short_snippets 100 = Ok s.
Proof.
  apply (format_context_returns short_snippets 100).
  repeat constructor; discriminate.
Defined.

(** A snippet whose text is [None] makes [format_context] raise [TypeError]
    when the lines before it fit the budget, however little budget is
    left. *)
Theorem format_context_none_text (front back : list Message) (m : Message)
    (max_chars : Z) (lines : list string) :
  mapM render_line front = Ok lines ->
  (total_len lines <= max_chars)%Z ->
  m_text m = Null ->
  format_context (front ++ m :: back) max_chars = Raise TypeError.
Proof.
  intros Hlines Hfit Hnull. unfold format_context.
  rewrite (format_loop_app front (m :: back) max_chars [] 0%Z lines Hlines)
    by lia.
  simpl. unfold render_line, normalized_text. by rewrite Hnull.
Qed.

Lemma format_context_none_text_witness :
  format_context
    ([short_snippet] ++
     {| m_id := Str "9"; m_member_id := Null; m_member_name := Null;
        m_text := Null; m_timestamp := Null |} :: [short_snippet]) 15
  = Raise TypeError.
Proof.
  apply (format_context_none_text [short_snippet] [short_snippet] _ 15
           ["- A | 1 | 1: ok"]).
  - vm_compute. reflexivity.
  - vm_compute. discriminate.
  - reflexivity.
Defined.

(** When the rendered lines fit the budget together, none is dropped: the
    context is all of them joined by newlines. *)
Theorem format_context_all_lines (snippets : list Message) (max_chars : Z)
    (lines : list string) :
  mapM render_line snippets = Ok lines ->
  (total_len lines <= max_chars)%Z ->
  format_context snippets max_chars = Ok (join nl lines).
Proof.
  intros Hlines Hfit. unfold format_context.
  rewrite <- (app_nil_r snippets).
  rewrite (format_loop_app snippets [] max_chars [] 0%Z lines Hlines) by lia.
  done.
Qed.

Lemma format_context_all_lines_witness :
  format_context [short_snippet; short_snippet] 30 =
  Ok (join nl ["- A | 1 | 1: ok"; "- A | 1 | 1: ok"]).
Proof.
  apply (format_context_all_lines [short_snippet; short_snippet] 30).
  - vm_compute. reflexivity.
  - vm_compute. discriminate.
Defined.

Section RetrievalOrder.

Variable corpus : list (string * Message).
Hypothesis corpus_distinct : NoDup (map snd corpus).

Lemma corpus_position i j ci cj :
  corpus !! i = Some ci -> corpus !! j = Some cj -> ci.2 = cj.2 -> i = j.
Proof.
  intros Hi Hj Heq.
  apply (NoDup_lookup (map snd corpus) i j ci.2); [done| |].
  - change (map snd corpus) with (snd <$> corpus).
    by rewrite list_lookup_fmap, Hi.
  - change (map snd corpus) with (snd <$> corpus).
    rewrite list_lookup_fmap, Hj. simpl. by rewrite Heq.
Qed.

(** Distinct indices give distinct messages, each found at the index of
    one of the results. *)
Lemma rank_results_distinct results : forall ranked,
  indices_in_range (length corpus) results ->
  NoDup (map snd results) ->
  rank_results corpus results = Ok ranked ->
  NoDup ranked /\
  forall m, m ∈ ranked ->
    exists r c, r ∈ results /\ corpus !! Z.to_nat r.2 = Some c /\ c.2 = m.
Proof.
  induction results as [|[[choice score] idx] results IH]; intros ranked Hidx Hnd;
    simpl.
  { intros [= <-]. split; [constructor|]. intros m Hm. by apply elem_of_nil in Hm. }
  apply Forall_cons in Hidx as [Hi Hidx]. simpl in Hi.
  apply NoDup_cons in Hnd as [Hfresh Hnd]. simpl in Hfresh.
  assert (Hlift : forall ms : list Message, (forall m, m ∈ ms ->
            exists r c, r ∈ results /\ corpus !! Z.to_nat r.2 = Some c /\ c.2 = m) ->
          forall m, m ∈ ms ->
            exists r c, r ∈ (choice, score, idx) :: results /\
                        corpus !! Z.to_nat r.2 = Some c /\ c.2 = m).
  { intros ms Hms m Hm. destruct (Hms m Hm) as (r & c & Hr & Hc & Hcm).
    exists r, c. split_and!; [by right|done..]. }
  destruct (Qle_bool (40 # 1) score).
  - destruct (index_in_range corpus idx Hi) as (c & Hc & Hlook).
    rewrite Hc. simpl.
    destruct (rank_results corpus results) as [ms|] eqn:Hrank; simpl; [|done].
    intros [= <-]. destruct (IH ms Hidx Hnd eq_refl) as [Hms Hfrom].
    split.
    + apply NoDup_cons. split; [|done]. intros Hin.
      destruct (Hfrom _ Hin) as (r & c' & Hr & Hc' & Heq).
      assert (Hpos : Z.to_nat r.2 = Z.to_nat idx)
        by (eapply corpus_position; eauto).
      rewrite Forall_forall in Hidx. specialize (Hidx r Hr). simpl in Hidx.
      assert (r.2 = idx) by lia. subst idx.
      apply Hfresh. apply list_elem_of_In, in_map. by apply list_elem_of_In.
    + intros m [->|Hm]%elem_of_cons; [|by apply (Hlift ms)].
      exists (choice, score, idx), c. split_and!; [by left|done..].
  - intros Hrank. destruct (IH ranked Hidx Hnd Hrank) as [Hms Hfrom].
    split; [done|]. by apply Hlift.
Qed.

End RetrievalOrder.

(** [retrieve_top] returns no message twice when the input has no repeated
    message and the extractor returns each index once. *)
Theorem retrieve_top_no_repeats (extract : Extractor) (messages : list Message)
    (question : string) (k : Z) (ranked : list Message) :
  NoDup messages ->
  indices_in_range (length messages) (extracted extract messages question k) ->
  NoDup (map snd (extracted extract messages question k)) ->
  retrieve_top extract messages question k = Ok ranked ->
  NoDup ranked.
Proof.
  intros Hnd Hidx Hids. destruct messages as [|m0 ms] eqn:Hms.
  { intros [= <-]. constructor. }
  rewrite <- Hms in *. rewrite retrieve_top_nonempty by (by rewrite Hms).
  set (corpus := map (fun m => (_msg_text m, m)) messages).
  assert (Hsnd : map snd corpus = messages).
  { unfold corpus. rewrite map_map. simpl. apply map_id. }
  destruct (rank_results corpus _) as [found|] eqn:Hrank; simpl; [|done].
  intros [= <-].
  apply (rank_results_distinct corpus) in Hrank as [Hfound _];
    [|by rewrite Hsnd|unfold corpus; by rewrite length_map|done].
  assert (Hcut : forall l : list Message, NoDup l -> NoDup (slice_to k l)).
  { intros l Hl. unfold slice_to.
    destruct (k <? 0)%Z; eapply sublist_NoDup; eauto using sublist_take. }
  destruct found; apply Hcut; [by apply Hcut|done].
Qed.

Lemma retrieve_top_no_repeats_witness : NoDup [sample_message "Bob" "book a table" "2"].
Proof.
  apply (retrieve_top_no_repeats substring_extract two_messages "table" 24).
  - repeat constructor; vm_compute; intros H; inversion H as [|? ? ? H1];
      subst; inversion H1.
  - vm_compute. repeat constructor; discriminate.
  - vm_compute. repeat constructor; intros H; inversion H as [|? ? ? H1];
      subst; try discriminate; inversion H1.
  - vm_compute. reflexivity.
Defined.

(** The records of a fetch that ran its loop to the end are all renamed;
    those of a fetch cut short by a 401 or 403 answer are returned as the
    source sent them, none renamed. *)
Theorem fetch_messages_renaming (source : Source) (limit : Z) :
  let run := fetch_run source limit in
  let ans := answers source 0 (run_requests run) in
  (last ans = Some Status403 \/ last ans = Some Status401 ->
   fetch_messages source limit = map unrenamed (run_items run) /\
   Forall not_renamed (fetch_messages source limit)) /\
  (last ans <> Some Status403 -> last ans <> Some Status401 ->
   fetch_messages source limit = map normalize (run_items run) /\
   Forall renamed (fetch_messages source limit)).
Proof.
  cbv zeta. pose proof (fetch_loop_exit source limit 3 0 0%Z []) as Hexit.
  cbv zeta in Hexit. fold (fetch_run source limit) in Hexit.
  unfold fetch_messages. split.
  - intros Hlast. apply Hexit in Hlast. rewrite Hlast. split; [done|].
    apply Forall_forall. intros m Hm.
    apply list_elem_of_In, in_map_iff in Hm as (r & <- & _). done.
  - intros H403 H401. destruct (run_exit (fetch_run source limit)) eqn:Hrun.
    { destruct (proj1 Hexit eq_refl) as [?|?]; done. }
    split; [done|]. apply Forall_forall. intros m Hm.
    apply list_elem_of_In, in_map_iff in Hm as (r & <- & _).
    unfold renamed, normalize. simpl. split_and!.
    + by eexists.
    + by destruct (r_user_name r).
    + by destruct (r_user_id r).
Qed.

(** A first page followed by a 403 answer gives back exactly that page,
    not renamed. *)
Theorem fetch_messages_refused_second_page (source : Source) (limit : Z)
    (item : RawItem) (items : list RawItem) :
  source 0 0%Z = Page (item :: items) ->
  (100 < limit)%Z ->
  source 1 100%Z = Status403 \/ source 1 100%Z = Status401 ->
  fetch_messages source limit = map unrenamed (item :: items).
Proof.
  intros Hfirst Hlimit Hsecond.
  unfold fetch_messages, fetch_run.
  rewrite fetch_loop_step, Hfirst.
  destruct (limit <=? 0 + page_size)%Z eqn:Hcut; [unfold page_size in Hcut; lia|].
  change (0 + page_size)%Z with 100%Z.
  rewrite fetch_loop_step. by destruct Hsecond as [-> | ->].
Qed.

Lemma fetch_messages_refused_second_page_witness :
  fetch_messages refusing_source 300 = map unrenamed [sample_item].
Proof.
  apply (fetch_messages_refused_second_page refusing_source 300 sample_item []).
  - reflexivity.
  - lia.
  - left. reflexivity.
Defined.

(** A fetch whose first request is refused or finds an empty page, or whose
    three requests all fail, returns the empty list. *)
Theorem fetch_messages_nothing (source : Source) (limit : Z) :
  source 0 0%Z = Status403 \/ source 0 0%Z = Status401 \/ source 0 0%Z = Page [] \/
  (source 0 0%Z = Failed /\ source 1 0%Z = Failed /\ source 2 0%Z = Failed) ->
  fetch_messages source limit = [].
Proof.
  unfold fetch_messages, fetch_run. rewrite fetch_loop_step.
  intros [-> | [-> | [-> | (-> & H1 & H2)]]]; try done.
  cbn [sent run_exit run_items]. rewrite fetch_loop_step, H1.
  cbn [sent run_exit run_items]. rewrite fetch_loop_step, H2. done.
Qed.

Lemma fetch_messages_nothing_witness : fetch_messages dead_source 300 = [].
Proof.
  apply (fetch_messages_nothing dead_source 300).
  right; right; right. by split_and!.
Defined.

Lemma fetch_messages_texts (source : Source) (limit : Z) :
  texts_not_null (fetch_messages source limit).
Proof.
  unfold fetch_messages. apply Forall_forall. intros m Hm.
  destruct (run_exit _);
    apply list_elem_of_In, in_map_iff in Hm as (r & <- & _); done.
Qed.

Section Candidates.

Lemma filter_candidates_spec messages : forall found,
  filter_candidates messages = Ok found ->
  found ⊆ messages /\
  Forall (fun m => is_action_request m = Ok true) found.
Proof.
  induction messages as [|m messages IH]; intros found; simpl.
  { intros [= <-]. split; [done|constructor]. }
  destruct (is_action_request m) as [keep|] eqn:Hkeep; simpl; [|done].
  destruct (filter_candidates messages) as [cs|]; simpl; [|done].
  destruct (IH cs eq_refl) as [Hsub Hall].
  intros [= <-]. destruct keep.
  - split; [|by constructor].
    intros x [->|Hx]%elem_of_cons; [by left|right; by apply Hsub].
  - split; [|done]. intros x Hx. right. by apply Hsub.
Qed.

Lemma filter_candidates_none_text messages m :
  m ∈ messages -> m_text m = Null ->
  filter_candidates messages = Raise AttributeError.
Proof.
  intros Hm Hnull. induction messages as [|m' messages IH].
  { by apply elem_of_nil in Hm. }
  simpl. unfold is_action_request at 1.
  apply elem_of_cons in Hm as [->|Hm]; [by rewrite Hnull|].
  rewrite (IH Hm). by destruct (m_text m').
Qed.

Lemma selected_elem_of candidate_msgs j m :
  selected candidate_msgs j = Some m -> m ∈ candidate_msgs.
Proof.
  unfold selected. destruct (int_instance j); [|done].
  destruct (_ && _); [|done]. apply list_elem_of_lookup_2.
Qed.

End Candidates.

(** Whatever the service replies, every message the classifier returns is a
    message of the input whose text contains an action word, and one of the
    first [max_examples] such messages. *)
Theorem detect_underspecified_from_candidates (api_key : pyval)
    (completion : Completion) (json_loads : JsonParser)
    (messages : list Message) (max_examples : Z) (flagged : list Message) :
  detect_underspecified_requests_gpt api_key completion json_loads
    messages max_examples = Ok flagged ->
  forall m, m ∈ flagged ->
    m ∈ messages /\
    is_action_request m = Ok true /\
    exists found,
      filter_candidates messages = Ok found /\ m ∈ slice_to max_examples found.
Proof.
  unfold detect_underspecified_requests_gpt.
  destruct (negb (truthy api_key)).
  { intros [= <-] m Hm. by apply elem_of_nil in Hm. }
  destruct (filter_candidates messages) as [found|] eqn:Hfound; simpl; [|done].
  destruct (filter_candidates_spec messages found Hfound) as [Hsub Hall].
  destruct found as [|c found].
  { intros [= <-] m Hm. by apply elem_of_nil in Hm. }
  set (candidate_msgs := slice_to max_examples (c :: found)).
  destruct (listing_lines 1 candidate_msgs) as [lines|]; simpl; [|done].
  destruct (classify _ _ _ _) as [out|] eqn:Hout.
  2: { intros [= <-] m Hm. by apply elem_of_nil in Hm. }
  intros [= <-] m Hm.
  assert (Hcand : m ∈ candidate_msgs).
  { unfold classify in Hout. destruct (completion _ _); [|done].
    destruct (json_loads _) as [[| | | | |indices|]|]; try done.
    rewrite map_indices_selected in Hout. injection Hout as <-.
    apply list_elem_of_omap in Hm as (j & _ & Hj).
    by eapply selected_elem_of. }
  pose proof (slice_to_subseteq _ _ _ Hcand) as Hin.
  rewrite Forall_forall in Hall.
  split_and!; [by apply Hsub|by apply Hall|]. by exists (c :: found).
Qed.

Lemma detect_underspecified_from_candidates_witness :
  jet_request ∈ [table_request; jet_request] /\
  is_action_request jet_request = Ok true /\
  exists found,
    filter_candidates [table_request; jet_request] = Ok found /\
    jet_request ∈ slice_to 80 found.
Proof.
  apply (detect_underspecified_from_candidates (Some "sk-test") (replying "[2]")
           json_flat [table_request; jet_request] 80 [jet_request]).
  - vm_compute. reflexivity.
  - by left.
Defined.

(** With a credential configured, a message whose text is [None] makes the
    classifier raise [AttributeError], before any call to the service: the
    filter runs outside the [try]. *)
Theorem detect_underspecified_none_text (api_key : pyval)
    (completion : Completion) (json_loads : JsonParser)
    (messages : list Message) (max_examples : Z) (m : Message) :
  truthy api_key = true ->
  m ∈ messages -> m_text m = Null ->
  detect_underspecified_requests_gpt api_key completion json_loads
    messages max_examples = Raise AttributeError.
Proof.
  intros Hkey Hm Hnull. unfold detect_underspecified_requests_gpt.
  rewrite Hkey. simpl. by rewrite (filter_candidates_none_text messages m).
Qed.

Lemma detect_underspecified_none_text_witness :
  detect_underspecified_requests_gpt (Some "sk-test") (replying "[1]") json_flat
    [jet_request; no_text] 80 = Raise AttributeError.
Proof.
  apply (detect_underspecified_none_text (Some "sk-test") (replying "[1]")
           json_flat [jet_request; no_text] 80 no_text).
  - reflexivity.
  - right. by left.
  - reflexivity.
Defined.

(** When no message contains an action word, or when the call to the
    service fails, the classifier returns the empty list. *)
Theorem detect_underspecified_nothing_to_ask (api_key : pyval)
    (completion : Completion) (json_loads : JsonParser)
    (messages : list Message) (max_examples : Z) :
  texts_not_null messages ->
  filter_candidates messages = Ok [] \/
  (forall sys usr, completion sys usr = None) ->
  detect_underspecified_requests_gpt api_key completion json_loads
    messages max_examples = Ok [].
Proof.
  intros Htexts Hquiet.
  destruct (truthy api_key) eqn:Hkey;
    [|by apply detect_underspecified_no_credential].
  destruct (detect_underspecified_reached api_key completion json_loads
              messages max_examples Hkey Htexts)
    as (found & joined & Hfound & ->).
  destruct found as [|c found]; [done|].
  destruct Hquiet as [Hnone|Hdown]; [congruence|].
  unfold classify. by rewrite Hdown.
Qed.

Lemma detect_underspecified_nothing_to_ask_witness :
  detect_underspecified_requests_gpt (Some "sk-test") failing json_flat
    [table_request; jet_request] 80 = Ok [].
Proof.
  apply (detect_underspecified_nothing_to_ask (Some "sk-test") failing json_flat
           [table_request; jet_request] 80).
  - repeat constructor; discriminate.
  - right. reflexivity.
Defined.

(** On the messages fetched from a source whose records have the documented
    shape, each of the keys [id], [user_id], [user_name], [message] and
    [timestamp] missing, [None] or a string as in [RawItem], the classifier
    always returns: the renaming leaves no text bound to [None].  A record
    whose [message] is neither [None] nor a string is not covered. *)
Theorem detect_underspecified_on_fetched (source : Source) (limit : Z)
    (api_key : pyval) (completion : Completion) (json_loads : JsonParser)
    (max_examples : Z) :
  exists flagged,
    detect_underspecified_requests_gpt api_key completion json_loads
      (fetch_messages source limit) max_examples = Ok flagged.
Proof.
  destruct (truthy api_key) eqn:Hkey.
  - destruct (detect_underspecified_reached api_key completion json_loads
                (fetch_messages source limit) max_examples Hkey
                (fetch_messages_texts source limit))
      as (found & joined & _ & ->).
    destruct found; [by eexists|]. destruct (classify _ _ _ _); by eexists.
  - rewrite detect_underspecified_no_credential by done. by eexists.
Qed.

Section DuplicateGroups.

Lemma ids_with_text_snoc txt seen m :
  ids_with_text txt (seen ++ [m]) =
  ids_with_text txt seen ++
  (if decide (trimmed_text m = txt)
   then match subscript (m_id m) with Ok i => [i] | Raise _ => [] end
   else []).
Proof.
  unfold ids_with_text. rewrite flat_map_app. simpl. by rewrite app_nil_r.
Qed.

Lemma text_map_add_entry seen text_map m text_map' :
  (forall txt, text_map !! txt = text_map_entry seen txt) ->
  text_map_add text_map m = Ok text_map' ->
  forall txt, text_map' !! txt = text_map_entry (seen ++ [m]) txt.
Proof.
  intros Hmap. unfold text_map_add. simpl.
  destruct (String.eqb (trimmed_text m) "") eqn:Hempty; simpl.
  - apply String.eqb_eq in Hempty. intros [= <-] txt. rewrite Hmap.
    unfold text_map_entry. rewrite ids_with_text_snoc.
    destruct (decide (trimmed_text m = txt)) as [Heq|Hne].
    + rewrite !decide_False; [done|intros [? _]; congruence..].
    + by rewrite app_nil_r.
  - apply String.eqb_neq in Hempty.
    destruct (subscript (m_id m)) as [i|] eqn:Hid; simpl; [|done].
    intros [= <-] txt. rewrite lookup_insert.
    unfold text_map_entry at 1. rewrite ids_with_text_snoc, Hid.
    destruct (decide (trimmed_text m = txt)) as [<-|Hne].
    + rewrite decide_True by (split; [done|by destruct (ids_with_text _ seen)]).
      f_equal. f_equal. rewrite Hmap. unfold text_map_entry.
      case_decide as Hsome; [done|].
      destruct (ids_with_text (trimmed_text m) seen) eqn:Hids; [done|].
      destruct Hsome. by split.
    + rewrite app_nil_r. apply Hmap.
Qed.

Lemma fill_text_map_entry rest : forall seen text_map text_map',
  (forall txt, text_map !! txt = text_map_entry seen txt) ->
  fill_text_map rest text_map = Ok text_map' ->
  forall txt, text_map' !! txt = text_map_entry (seen ++ rest) txt.
Proof.
  induction rest as [|m rest IH]; intros seen text_map text_map' Hmap; simpl.
  { intros [= <-]. by rewrite app_nil_r. }
  destruct (text_map_add text_map m) as [tm|] eqn:Hadd; simpl; [|done].
  intros Hfill txt.
  replace (seen ++ m :: rest) with ((seen ++ [m]) ++ rest)
    by (by rewrite <- app_assoc).
  eapply IH; [|done]. by eapply text_map_add_entry.
Qed.

(** The only exception of the loop is the [KeyError] of a missing id. *)
Lemma fill_text_map_key_error rest : forall text_map m,
  m ∈ rest -> m_id m = Absent -> trimmed_text m <> EmptyString ->
  fill_text_map rest text_map = Raise KeyError.
Proof.
  induction rest as [|m' rest IH]; intros text_map m Hm Hid Htxt.
  { by apply elem_of_nil in Hm. }
  simpl. unfold text_map_add at 1. simpl.
  destruct (String.eqb (trimmed_text m') "") eqn:Hempty; simpl.
  - apply String.eqb_eq in Hempty.
    apply elem_of_cons in Hm as [->|Hm]; [done|]. by eapply IH.
  - destruct (m_id m') eqn:Hid'; simpl; [done| |].
    + apply elem_of_cons in Hm as [->|Hm]; [congruence|]. by eapply IH.
    + apply elem_of_cons in Hm as [->|Hm]; [congruence|]. by eapply IH.
Qed.

End DuplicateGroups.

Lemma duplicate_msgs_lookup (messages : list Message)
    (duplicates : gmap string (list pyval)) (txt : string) :
  duplicate_msgs messages = Ok duplicates ->
  duplicates !! txt =
  if decide (txt <> EmptyString /\ 2 <= length (ids_with_text txt messages))
  then Some (ids_with_text txt messages)
  else None.
Proof.
  unfold duplicate_msgs.
  destruct (fill_text_map messages ∅) as [text_map|] eqn:Hfill; simpl; [|done].
  intros [= <-].
  pose proof (fill_text_map_entry messages [] ∅ text_map) as Hentry.
  simpl in Hentry.
  assert (Hstart : forall t : string,
            (∅ : gmap string (list pyval)) !! t = text_map_entry [] t).
  { intros t. rewrite lookup_empty. unfold text_map_entry.
    rewrite decide_False; [done|]. by intros [_ ?]. }
  specialize (Hentry Hstart Hfill txt).
  destruct (text_map !! txt) as [ids|] eqn:Hlook.
  - unfold text_map_entry in Hentry. case_decide as Hsome; [|done].
    injection Hentry as ->. destruct Hsome as [Hne Hids].
    case_decide as Hdup.
    + apply map_lookup_filter_Some. split; [done|]. simpl. lia.
    + apply map_lookup_filter_None. right. intros ids Hids'. simpl.
      rewrite Hlook in Hids'. injection Hids' as <-.
      intros Hlen. apply Hdup. split; [done|lia].
  - rewrite decide_False.
    + apply map_lookup_filter_None. by left.
    + intros [Hne Hlen]. unfold text_map_entry in Hentry.
      rewrite decide_True in Hentry; [done|]. split; [done|].
      destruct (ids_with_text txt messages); [simpl in Hlen; lia|done].
Qed.

(** The duplicate mapping is exact: a text is a key exactly when it is not
    empty and at least two messages have it as trimmed text, and its group
    lists the ids of all those messages, in input order. *)
Theorem duplicate_msgs_exact (messages : list Message)
    (duplicates : gmap string (list pyval)) (txt : string) :
  duplicate_msgs messages = Ok duplicates ->
  duplicates !! txt =
  if decide (txt <> EmptyString /\ 2 <= length (ids_with_text txt messages))
  then Some (ids_with_text txt messages)
  else None.
Proof. apply duplicate_msgs_lookup. Qed.

Lemma duplicate_msgs_exact_witness :
  exists duplicates,
    duplicate_msgs greetings = Ok duplicates /\
    duplicates !! "hello" =
    if decide ("hello" <> EmptyString /\
               2 <= length (ids_with_text "hello" greetings))
    then Some (ids_with_text "hello" greetings)
    else None.
Proof.
  destruct (duplicate_msgs greetings) as [duplicates|e] eqn:Hdup;
    [|by vm_compute in Hdup].
  exists duplicates. split; [done|].
  exact (duplicate_msgs_exact greetings duplicates "hello" Hdup).
Defined.

(** Every key of the duplicate mapping is trimmed: it neither starts nor
    ends with whitespace, and stripping it again changes nothing. *)
Theorem duplicate_msgs_keys_trimmed (messages : list Message)
    (duplicates : gmap string (list pyval)) (txt : string) (ids : list pyval) :
  duplicate_msgs messages = Ok duplicates ->
  duplicates !! txt = Some ids ->
  strip txt = txt /\ starts_with_space txt = false /\ ends_with_space txt = false.
Proof.
  intros Hdup Hlook.
  rewrite (duplicate_msgs_lookup messages duplicates txt Hdup) in Hlook.
  case_decide as Hkey; [|done]. destruct Hkey as [_ Hlen].
  assert (Hm : exists m, m ∈ messages /\ trimmed_text m = txt).
  { unfold ids_with_text in Hlen.
    destruct (flat_map _ messages) as [|i l] eqn:Hflat; [simpl in Hlen; lia|].
    assert (Hi : In i (flat_map
              (fun m => if decide (trimmed_text m = txt)
                        then match subscript (m_id m) with
                             | Ok i => [i]
                             | Raise _ => []
                             end
                        else []) messages)) by (rewrite Hflat; by left).
    apply in_flat_map in Hi as (m & Hm & Hin).
    exists m. split; [by apply list_elem_of_In|]. by case_decide. }
  destruct Hm as (m & _ & <-). unfold trimmed_text.
  destruct (strip_trimmed (or_empty (get (m_text m)))) as (Hstart & Hend & Hidem).
  by split_and!.
Qed.

Lemma duplicate_msgs_keys_trimmed_witness :
  strip "hello" = "hello" /\
  starts_with_space "hello" = false /\ ends_with_space "hello" = false.
Proof.
  destruct (duplicate_msgs greetings) as [duplicates|e] eqn:Hdup;
    [|by vm_compute in Hdup].
  apply (duplicate_msgs_keys_trimmed greetings duplicates "hello"
           [Some "1"; Some "2"] Hdup).
  vm_compute in Hdup. injection Hdup as <-. by vm_compute.
Defined.

(** A message with a non-empty trimmed text and no [id] key makes the
    duplicate scan raise [KeyError]. *)
Theorem duplicate_msgs_missing_id (messages : list Message) (m : Message) :
  m ∈ messages -> m_id m = Absent -> trimmed_text m <> EmptyString ->
  duplicate_msgs messages = Raise KeyError.
Proof.
  intros Hm Hid Htxt. unfold duplicate_msgs.
  by rewrite (fill_text_map_key_error messages ∅ m).
Qed.

Lemma duplicate_msgs_missing_id_witness :
  duplicate_msgs (greetings ++ [no_id]) = Raise KeyError.
Proof.
  apply (duplicate_msgs_missing_id (greetings ++ [no_id]) no_id).
  - apply elem_of_app. right. by left.
  - reflexivity.
  - discriminate.
Defined.

Section BurstsExact.

Variable date_parse : DateParser.
Variables threshold_count window : Z.

Lemma range_elem_of (n i : Z) : (0 <= i < n)%Z -> i ∈ range n.
Proof.
  intros Hi. unfold range. apply list_elem_of_In, in_map_iff.
  exists (Z.to_nat i). split; [lia|]. apply in_seq. lia.
Qed.

Lemma sliding_window_complete user valid_msgs times positions found i :
  sliding_window user valid_msgs times threshold_count window positions
    = Ok found ->
  i ∈ positions ->
  window_fits times threshold_count window i <> Ok false ->
  exists b, found = Some b.
Proof.
  induction positions as [|j rest IH]; simpl; intros Hrun Hi Hfit.
  { by apply elem_of_nil in Hi. }
  destruct (window_fits times threshold_count window j) as [[|]|] eqn:Hj;
    simpl in Hrun; [| |done].
  - destruct (burst_at _ _ _ _) as [b|]; simpl in Hrun; [|done].
    injection Hrun as <-. by eexists.
  - apply elem_of_cons in Hi as [->|Hi]; [congruence|]. by apply IH.
Qed.

Hypothesis threshold_positive : (1 <= threshold_count)%Z.
Hypothesis window_small : (- 2 ^ 34 < window < 2 ^ 34)%Z.

(** A position at which the loop's test holds: the two timestamps it reads
    and their exact distance. *)
Lemma window_fits_true times i :
  (0 <= i < Z.of_nat (length times) - threshold_count + 1)%Z ->
  window_fits times threshold_count window i = Ok true ->
  exists first last,
    times !! Z.to_nat i = Some first /\
    times !! (Z.to_nat i + Z.to_nat (threshold_count - 1))%nat = Some last /\
    (dt_micros last - dt_micros first <= window * 1000000)%Z.
Proof.
  intros Hi. unfold window_fits.
  destruct (index_in_range times i ltac:(lia)) as (first & -> & Hfirst).
  destruct (index_in_range times (i + threshold_count - 1) ltac:(lia))
    as (last & -> & Hlast).
  simpl. unfold sub_datetime. destruct (Bool.eqb _ _); simpl; [|done].
  intros [= Hfit]. exists first, last. split_and!; [done| |].
  - rewrite <- Hlast. f_equal. lia.
  - by apply total_seconds_le.
Qed.

(** The loop's test does not fail at a position whose two timestamps are
    within the window. *)
Lemma window_fits_not_false times (i : nat) first last :
  times !! i = Some first ->
  times !! (i + Z.to_nat (threshold_count - 1))%nat = Some last ->
  (dt_micros last - dt_micros first <= window * 1000000)%Z ->
  window_fits times threshold_count window (Z.of_nat i) <> Ok false.
Proof.
  intros Hfirst Hlast Hspan. unfold window_fits.
  pose proof (lookup_lt_Some _ _ _ Hlast) as Hlen.
  destruct (index_in_range times (Z.of_nat i) ltac:(lia)) as (x & -> & Hx).
  destruct (index_in_range times (Z.of_nat i + threshold_count - 1) ltac:(lia))
    as (y & -> & Hy).
  rewrite Nat2Z.id in Hx.
  replace (Z.to_nat (Z.of_nat i + threshold_count - 1))
    with (i + Z.to_nat (threshold_count - 1))%nat in Hy by lia.
  assert (x = first) by congruence. assert (y = last) by congruence.
  subst x y. simpl. unfold sub_datetime.
  destruct (Bool.eqb _ _); simpl; [|done].
  unfold within_seconds.
  by rewrite (proj2 (total_seconds_le _ _ window_small) Hspan).
Qed.

Lemma scan_user_hit user msgs b :
  scan_user date_parse threshold_count window user msgs = Ok (Some b) ->
  exists times (i : nat) first last,
    mapM (fun m => (v ← subscript (m_timestamp m);
                    date_parse_value date_parse v))
      (sort_by_timestamp (List.filter has_timestamp msgs)) = Ok times /\
    times !! i = Some first /\
    times !! (i + Z.to_nat (threshold_count - 1))%nat = Some last /\
    (dt_micros last - dt_micros first <= window * 1000000)%Z.
Proof.
  unfold scan_user.
  destruct (List.filter has_timestamp msgs) as [|m0 valid]; [done|].
  destruct (mapM _ _) as [times|]; simpl; [|done].
  intros (before & i & after & Hpos & _ & Hfit & _)%sliding_window_hit.
  assert (Hi : i ∈ range (Z.of_nat (length times) - threshold_count + 1)).
  { rewrite Hpos. apply elem_of_app. right. by left. }
  apply elem_of_range in Hi.
  destruct (window_fits_true times i Hi Hfit) as (first & last & H1 & H2 & H3).
  by exists times, (Z.to_nat i), first, last.
Qed.

Lemma scan_user_complete user msgs found times (i : nat) first last :
  scan_user date_parse threshold_count window user msgs = Ok found ->
  mapM (fun m => (v ← subscript (m_timestamp m);
                  date_parse_value date_parse v))
    (sort_by_timestamp (List.filter has_timestamp msgs)) = Ok times ->
  times !! i = Some first ->
  times !! (i + Z.to_nat (threshold_count - 1))%nat = Some last ->
  (dt_micros last - dt_micros first <= window * 1000000)%Z ->
  exists b, found = Some b.
Proof.
  unfold scan_user.
  destruct (List.filter has_timestamp msgs) as [|m0 valid].
  { by intros _ [= <-] Hfirst. }
  intros Hrun Htimes. rewrite Htimes in Hrun. simpl in Hrun.
  intros Hfirst Hlast Hspan.
  pose proof (lookup_lt_Some _ _ _ Hlast) as Hlen.
  eapply (sliding_window_complete _ _ _ _ _ (Z.of_nat i)); [exact Hrun| |].
  - apply range_elem_of. lia.
  - by eapply window_fits_not_false.
Qed.

Lemma scan_users_entry by_user : forall bursts user msgs,
  scan_users date_parse threshold_count window by_user = Ok bursts ->
  (user, msgs) ∈ by_user ->
  exists found,
    scan_user date_parse threshold_count window user msgs = Ok found /\
    forall b, found = Some b -> b ∈ bursts.
Proof.
  induction by_user as [|[u ms] rest IH]; intros bursts user msgs; simpl.
  { intros _ Hin. by apply elem_of_nil in Hin. }
  destruct (scan_user _ _ _ u ms) as [found|] eqn:Hscan; simpl; [|done].
  destruct (scan_users _ _ _ rest) as [bs|] eqn:Hrest; simpl; [|done].
  intros [= <-] [[= -> ->]|Hin]%elem_of_cons.
  - exists found. split; [done|]. intros b ->. by left.
  - destruct (IH bs user msgs eq_refl Hin) as (found' & Hfound' & Hb).
    exists found'. split; [done|]. intros b Hsome.
    destruct found; [right|]; by apply Hb.
Qed.

End BurstsExact.

(** Burst detection is exact on the users it flags.  For a threshold of at
    least 1 and a window below [2 ^ 34] seconds in absolute value, when the
    detection returns, a user has a record exactly when [threshold_count]
    consecutive timestamps of that user, taken in the order of their raw
    strings as the code sorts them, are at most [window_seconds] apart: the
    timestamp at some position [i] and the one at position
    [i + threshold_count - 1] differ by at most [window_seconds * 10 ^ 6]
    microseconds. *)
Theorem detect_burst_messages_exact (date_parse : DateParser)
    (messages : list Message) (threshold_count window_seconds : Z)
    (bursts : list Burst) (user : pyval) :
  (1 <= threshold_count)%Z ->
  (- 2 ^ 34 < window_seconds < 2 ^ 34)%Z ->
  detect_burst_messages date_parse messages threshold_count window_seconds
    = Ok bursts ->
  (user ∈ map b_user bursts <->
   has_fitting_window date_parse threshold_count window_seconds messages user).
Proof.
  unfold detect_burst_messages. intros Hcount Hwindow Hscan.
  destruct (group_by_user_grouped messages) as (Hnd & Hexact & Hcover).
  split.
  - intros Huser. apply list_elem_of_In, in_map_iff in Huser as (b & <- & Hb).
    apply list_elem_of_In in Hb.
    apply scan_users_sound in Hscan as [_ Hall].
    rewrite Forall_forall in Hall.
    destruct (Hall b Hb) as (msgs & Hin & Hrun).
    apply Hexact in Hin. subst msgs.
    by apply scan_user_hit in Hrun.
  - intros (times & i & first & last & Htimes & Hfirst & Hlast & Hspan).
    unfold user_times in Htimes.
    assert (Hkey : user ∈ map fst (group_by_user messages)).
    { destruct (List.filter has_timestamp (user_messages user messages))
        as [|m valid] eqn:Hvalid.
      { simpl in Htimes. injection Htimes as <-. done. }
      assert (Hm : m ∈ user_messages user messages).
      { assert (Hin : In m (List.filter has_timestamp (user_messages user messages)))
          by (rewrite Hvalid; by left).
        apply filter_In in Hin as [Hin _]. by apply list_elem_of_In. }
      apply list_elem_of_filter in Hm as [<- Hm]. by apply Hcover. }
    apply list_elem_of_In, in_map_iff in Hkey as ([u msgs] & Hu & Hin).
    simpl in Hu. subst u. apply list_elem_of_In in Hin.
    pose proof (Hexact _ _ Hin) as Hmsgs.
    destruct (scan_users_entry _ _ _ _ _ _ _ Hscan Hin) as (found & Hrun & Hfound).
    subst msgs.
    destruct (scan_user_complete _ _ _ Hcount Hwindow _ _ _ _ _ _ _
                Hrun Htimes Hfirst Hlast Hspan) as [b ->].
    apply scan_user_sound in Hrun as Hb. destruct Hb as (Hu & _).
    apply list_elem_of_In, in_map_iff. exists b. split; [done|].
    apply list_elem_of_In. by apply Hfound.
Qed.

Lemma detect_burst_messages_exact_witness :
  Some "Ann" ∈ map b_user
    [{| b_user := Some "Ann"; b_count := 5;
        b_start := Some "2024-01-01T10:00:00";
        b_end := Some "2024-01-01T10:00:20" |}] <->
  has_fitting_window iso_parse 5 30 busy_day (Some "Ann").
Proof.
  apply (detect_burst_messages_exact iso_parse busy_day 5 30).
  - lia.
  - lia.
  - vm_compute. reflexivity.
Defined.

Section Scan.

Variable env : Env.

(** The fields of a report, read off [main]. *)
Lemma main_report messages rep :
  main env messages = Ok rep ->
  rep_missing_text rep =
    List.filter (fun m => negb (truthy (get (m_text m)))) messages /\
  rep_missing_timestamp rep =
    List.filter (fun m => negb (has_timestamp m)) messages /\
  rep_short_msgs rep =
    List.filter (fun m => (len (trimmed_text m) <? 5)%Z) messages /\
  rep_impossible_times rep =
    impossible_times (env_date_parse env) (env_now_year env) messages /\
  duplicate_msgs messages = Ok (rep_duplicate_msgs rep) /\
  detect_burst_messages (env_date_parse env) messages 5 30
    = Ok (rep_burst_cases rep).
Proof.
  unfold main.
  destruct (mapM _ messages) as [lengths|]; simpl; [|done].
  destruct (duplicate_msgs messages) as [duplicates|]; simpl; [|done].
  destruct (detect_burst_messages _ _ _ _) as [burst_cases|]; simpl; [|done].
  destruct (detect_underspecified_requests_gpt _ _ _ _ _) as [cases|];
    simpl; [|done].
  by intros [= <-].
Qed.

Lemma fill_text_map_returns rest : forall text_map,
  (forall m, m ∈ rest -> trimmed_text m <> EmptyString -> m_id m <> Absent) ->
  exists text_map', fill_text_map rest text_map = Ok text_map'.
Proof.
  induction rest as [|m rest IH]; intros text_map Hids; simpl; [by eexists|].
  unfold text_map_add at 1. simpl.
  destruct (String.eqb (trimmed_text m) "") eqn:Hempty; simpl.
  - apply IH. intros m' Hm'. apply Hids. by right.
  - apply String.eqb_neq in Hempty.
    assert (Hid : m_id m <> Absent) by (apply Hids; [by left|done]).
    destruct (m_id m); [done| |]; simpl; apply IH;
      intros m' Hm'; apply Hids; by right.
Qed.

Lemma detect_underspecified_returns messages max_examples :
  texts_not_null messages ->
  exists flagged,
    detect_underspecified_requests_gpt (env_api_key env) (env_completion env)
      (env_json_loads env) messages max_examples = Ok flagged.
Proof.
  intros Htexts. destruct (truthy (env_api_key env)) eqn:Hkey.
  - destruct (detect_underspecified_reached (env_api_key env)
                (env_completion env) (env_json_loads env)
                messages max_examples Hkey Htexts)
      as (found & joined & _ & ->).
    destruct found; [by eexists|]. destruct (classify _ _ _ _); by eexists.
  - rewrite detect_underspecified_no_credential by done. by eexists.
Qed.

End Scan.

(** In a report of [main], every message counted as missing its text is
    also counted as very short, and no message is counted both as missing
    its timestamp and as having an impossible one. *)
Theorem main_report_overlaps (env : Env) (messages : list Message) (rep : Report)
    (m : Message) :
  main env messages = Ok rep ->
  (m ∈ rep_missing_text rep -> m ∈ rep_short_msgs rep) /\
  (m ∈ rep_missing_timestamp rep -> m ∉ rep_impossible_times rep).
Proof.
  intros (-> & -> & -> & -> & _)%main_report. split.
  - rewrite !list_elem_of_In, !filter_In. intros [Hin Hmissing].
    split; [done|]. unfold trimmed_text.
    destruct (get (m_text m)) as [t|]; [|done]. simpl in Hmissing.
    apply negb_true_iff, negb_false_iff, String.eqb_eq in Hmissing.
    by subst t.
  - rewrite list_elem_of_In, filter_In. intros [_ Hmissing].
    apply negb_true_iff in Hmissing.
    intros [_ (ts & dt & Hfield & Hne & _)]%impossible_times_elem_of.
    unfold has_timestamp in Hmissing. rewrite Hfield in Hmissing.
    simpl in Hmissing. apply negb_false_iff, String.eqb_eq in Hmissing. done.
Qed.

Lemma main_report_overlaps_witness :
  exists rep,
    main (offline iso_parse) greetings = Ok rep /\
    (sample_message "Ann" "hello" "1" ∈ rep_missing_text rep ->
     sample_message "Ann" "hello" "1" ∈ rep_short_msgs rep) /\
    (sample_message "Ann" "hello" "1" ∈ rep_missing_timestamp rep ->
     sample_message "Ann" "hello" "1" ∉ rep_impossible_times rep).
Proof.
  destruct (main (offline iso_parse) greetings) as [rep|e] eqn:Hmain;
    [|by vm_compute in Hmain].
  exists rep. split; [done|].
  exact (main_report_overlaps (offline iso_parse) greetings rep _ Hmain).
Defined.

(** The scan of [main] completes when no text is [None], every message
    with a non-empty trimmed text has an id, and every timestamp present
    parses, to values all aware or all naive. *)
Theorem main_completes (env : Env) (messages : list Message) (aware : bool) :
  texts_not_null messages ->
  ids_present messages ->
  timestamps_parse (env_date_parse env) aware messages ->
  exists rep, main env messages = Ok rep.
Proof.
  intros Htexts Hids Hparse. unfold main.
  destruct (mapM_returns
              (fun m => match get_default (m_text m) "" with
                        | Some t => Ok (len t)
                        | None => Raise TypeError
                        end) messages) as [lengths ->].
  { eapply Forall_impl; [exact Htexts|]. intros m Hm. simpl in Hm.
    destruct (m_text m); [|done|]; simpl; by eexists. }
  simpl. unfold duplicate_msgs.
  destruct (fill_text_map_returns messages ∅ Hids) as [text_map ->]. simpl.
  destruct (detect_burst_messages_returns (env_date_parse env) 5 30 aware
              ltac:(lia) messages Hparse) as [bursts ->]. simpl.
  destruct (detect_underspecified_returns env messages 80 Htexts) as [cases ->].
  simpl. by eexists.
Qed.

Lemma main_completes_witness :
  exists rep, main (offline iso_parse) busy_day = Ok rep.
Proof.
  apply (main_completes (offline iso_parse) busy_day false).
  - repeat constructor; discriminate.
  - intros m Hm _.
    repeat (apply elem_of_cons in Hm as [->|Hm]; [discriminate|]).
    by apply elem_of_nil in Hm.
  - intros m ts Hm Hts _.
    repeat (apply elem_of_cons in Hm as [->|Hm];
            [injection Hts as <-; eexists; split; vm_compute; reflexivity|]).
    by apply elem_of_nil in Hm.
Defined.

Section Answering.

Lemma retrieve_top_length extract messages question k ranked :
  retrieve_top extract messages question k = Ok ranked ->
  (0 <= k)%Z -> (Z.of_nat (length ranked) <= k)%Z.
Proof.
  unfold retrieve_top. destruct messages as [|m0 ms].
  { intros [= <-]. simpl. lia. }
  destruct (rank_results _ _) as [found|]; simpl; [|done].
  intros [= <-] Hk. by apply slice_to_length.
Qed.

Lemma retrieve_top_returns extract messages question k :
  indices_in_range (length messages) (extracted extract messages question k) ->
  exists ranked,
    retrieve_top extract messages question k = Ok ranked /\ ranked ⊆ messages.
Proof.
  intros Hidx. destruct messages as [|m0 ms] eqn:Hms.
  { exists []. by split. }
  rewrite <- Hms in *. rewrite retrieve_top_nonempty by (by rewrite Hms).
  set (corpus := map (fun m => (_msg_text m, m)) messages).
  assert (Hsnd : map snd corpus = messages).
  { unfold corpus. rewrite map_map. simpl. apply map_id. }
  destruct (rank_results_spec corpus (extracted extract messages question k))
    as (found & -> & Hmem & _).
  { unfold corpus. by rewrite length_map. }
  simpl. eexists. split; [done|].
  intros m Hm%slice_to_subseteq. destruct found.
  - by apply slice_to_subseteq in Hm.
  - rewrite <- Hsnd. by apply Hmem.
Qed.

(** The context is no longer than the budget plus one newline per snippet
    after the first. *)
Lemma format_context_length snippets max_chars context :
  format_context snippets max_chars = Ok context ->
  (0 <= max_chars)%Z ->
  (len context <= max_chars + Z.max 0 (Z.of_nat (length snippets) - 1))%Z.
Proof.
  unfold format_context.
  destruct (format_loop snippets max_chars [] 0) as [out|] eqn:Hloop; [|done].
  simpl. intros [= <-] Hmax.
  apply format_loop_spec in Hloop as (lines & -> & Hlines & Hsum & _).
  simpl. rewrite len_join.
  apply mapM_Forall2, Forall2_length in Hlines. rewrite length_take in Hlines.
  destruct lines as [|l lines]; [simpl; lia|].
  specialize (Hsum ltac:(done)). lia.
Qed.

End Answering.

(** The context that [route] hands to the model is at most 8023 characters
    long: the budget of 8000 and a newline after each of at most 23 lines. *)
Theorem route_context_bounded (extract : Extractor) (messages : list Message)
    (question : string) (snippets : list Message) (context : string) :
  retrieve_top extract messages question 24 = Ok snippets ->
  format_context snippets 8000 = Ok context ->
  (len context <= 8023)%Z.
Proof.
  intros Hsnippets Hcontext.
  apply retrieve_top_length in Hsnippets; [|lia].
  apply format_context_length in Hcontext; [|lia]. lia.
Qed.

Lemma route_context_bounded_witness :
  (len "- Bob | 2024-01-01T00:00:00 | 2: book a table" <= 8023)%Z.
Proof.
  apply (route_context_bounded substring_extract two_messages "table"
           [sample_message "Bob" "book a table" "2"]).
  - vm_compute. reflexivity.
  - vm_compute. reflexivity.
Defined.

(** For a source whose records have the documented shape, each of the keys
    [id], [user_id], [user_name], [message] and [timestamp] missing, [None]
    or a string as in [RawItem], and an extractor whose indices point into
    its choices, [ask] gets as far as the answerer: without a credential it
    answers with the literal error text and status 200; with one it answers
    with the stripped reply of the service, or with status 500 when the call
    fails.  The context sent is at most 8023 characters long.  A record
    whose [message] is neither [None] nor a string is not covered. *)
Theorem ask_outcome (source : Source) (extract : Extractor) (api_key : pyval)
    (completion : Completion) (q : string) :
  indices_in_range (length (fetch_messages source 300))
    (extracted extract (fetch_messages source 300) q 24) ->
  exists context,
    (len context <= 8023)%Z /\
    ask source extract api_key completion q =
    if negb (truthy api_key) then Answer missing_key_answer
    else match completion qa_system_prompt (qa_user_prompt q context) with
         | Some reply => Answer (strip reply)
         | None => ServerError APIError
         end.
Proof.
  intros Hidx.
  destruct (retrieve_top_returns extract (fetch_messages source 300) q 24 Hidx)
    as (snippets & Hsnippets & Hsub).
  assert (Htexts : texts_not_null snippets).
  { apply Forall_forall. intros m Hm%Hsub.
    pose proof (fetch_messages_texts source 300) as Hall.
    unfold texts_not_null in Hall. rewrite Forall_forall in Hall.
    by apply Hall. }
  destruct (format_loop_returns snippets 8000 [] 0%Z Htexts) as [lines Hlines].
  assert (Hcontext : format_context snippets 8000 = Ok (join nl lines)).
  { unfold format_context. by rewrite Hlines. }
  exists (join nl lines). split.
  { apply retrieve_top_length in Hsnippets as Hlen; [|lia].
    apply format_context_length in Hcontext as Hbound; [|lia]. lia. }
  unfold ask, route. rewrite Hsnippets. simpl. rewrite Hcontext. simpl.
  unfold llm_answer. destruct (negb (truthy api_key)); [done|].
  by destruct (completion _ _).
Qed.

Lemma ask_outcome_witness :
  exists context,
    (len context <= 8023)%Z /\
    ask one_page_source substring_extract (Some "sk-test") (replying " Paris ")
      "hello" =
    if negb (truthy (Some "sk-test")) then Answer missing_key_answer
    else match replying " Paris " qa_system_prompt
                 (qa_user_prompt "hello" context) with
         | Some reply => Answer (strip reply)
         | None => ServerError APIError
         end.
Proof.
  apply (ask_outcome one_page_source substring_extract (Some "sk-test")
           (replying " Paris ") "hello").
  vm_compute. repeat constructor; discriminate.
Defined.

(** The three outcomes, on a source with one record. *)
Example ask_replies :
  ask one_page_source substring_extract (Some "sk-test") (replying " Paris ")
    "hello" = Answer "Paris".
Proof. vm_compute. reflexivity. Qed.

Example ask_service_down :
  ask one_page_source substring_extract (Some "sk-test") failing "hello"
  = ServerError APIError.
Proof. vm_compute. reflexivity. Qed.

Example ask_no_credential :
  ask one_page_source substring_extract None (replying " Paris ") "hello"
  = Answer missing_key_answer.
Proof. vm_compute. reflexivity. Qed.

(** With [k] equal to 0 nothing is returned, even from a non-empty list:
    the fallback to the first messages is cut to [k] as well. *)
Theorem retrieve_top_zero (extract : Extractor) (messages : list Message)
    (question : string) :
  indices_in_range (length messages) (extracted extract messages question 0) ->
  retrieve_top extract messages question 0 = Ok [].
Proof.
  intros Hidx.
  destruct (retrieve_top_returns extract messages question 0 Hidx)
    as (ranked & Hranked & _).
  rewrite Hranked. apply retrieve_top_length in Hranked; [|lia].
  destruct ranked; [done|]. simpl in Hranked. lia.
Qed.

Lemma retrieve_top_zero_witness :
  retrieve_top substring_extract two_messages "table" 0 = Ok [].
Proof.
  apply (retrieve_top_zero substring_extract two_messages "table").
  vm_compute. constructor.
Defined.

(** A non-empty first page is always fetched and kept; with a limit of at
    most 100, zero or negative included, the fetch stops there and returns
    that page, renamed. *)
Theorem fetch_messages_first_page (source : Source) (limit : Z)
    (item : RawItem) (items : list RawItem) :
  source 0 0%Z = Page (item :: items) ->
  (limit <= 100)%Z ->
  fetch_messages source limit = map normalize (item :: items) /\
  run_requests (fetch_run source limit) = [(0, 100)]%Z.
Proof.
  intros Hfirst Hlimit. unfold fetch_messages, fetch_run.
  rewrite fetch_loop_step, Hfirst.
  destruct (limit <=? 0 + page_size)%Z eqn:Hcut; [done|].
  unfold page_size in Hcut. lia.
Qed.

Lemma fetch_messages_first_page_witness :
  fetch_messages refusing_source 0 = map normalize [sample_item] /\
  run_requests (fetch_run refusing_source 0) = [(0, 100)]%Z.
Proof.
  apply (fetch_messages_first_page refusing_source 0 sample_item []).
  - reflexivity.
  - lia.
Defined.

(** Grouping by user loses and invents nothing: the users of the groups are
    pairwise distinct, each group holds the messages of its user in their
    original order, and every message has its user among the groups. *)
Theorem group_by_user_partition (messages : list Message) :
  NoDup (map fst (group_by_user messages)) /\
  (forall user msgs, (user, msgs) ∈ group_by_user messages ->
     msgs = filter (fun m => user_of m = user) messages) /\
  (forall m, m ∈ messages -> user_of m ∈ map fst (group_by_user messages)).
Proof. exact (group_by_user_grouped messages). Qed.

Section Provenance.

Variable date_parse : DateParser.
Variables threshold_count window : Z.

Lemma scan_user_provenance user msgs b :
  scan_user date_parse threshold_count window user msgs = Ok (Some b) ->
  exists first last,
    first ∈ msgs /\ last ∈ msgs /\
    subscript (m_timestamp first) = Ok (b_start b) /\
    subscript (m_timestamp last) = Ok (b_end b).
Proof.
  unfold scan_user.
  destruct (List.filter has_timestamp msgs) as [|m0 valid] eqn:Hvalid; [done|].
  destruct (mapM _ _) as [times|]; simpl; [|done].
  intros (_ & i & _ & _ & _ & _ & Hb)%sliding_window_hit.
  unfold burst_at in Hb.
  destruct (index _ i) as [first|] eqn:Hfirst; simpl in Hb; [|done].
  destruct (subscript (m_timestamp first)) as [s|] eqn:Hs; simpl in Hb; [|done].
  destruct (index _ (i + threshold_count - 1)) as [last|] eqn:Hlast;
    simpl in Hb; [|done].
  destruct (subscript (m_timestamp last)) as [e|] eqn:He; simpl in Hb; [|done].
  injection Hb as <-. simpl.
  assert (Hin : forall m, m ∈ sort_by_timestamp (m0 :: valid) -> m ∈ msgs).
  { intros m Hm. unfold sort_by_timestamp in Hm.
    rewrite stable_sort_perm, <- Hvalid in Hm.
    by apply list_elem_of_In, filter_In in Hm as [Hm%list_elem_of_In _]. }
  exists first, last. split_and!; [| |done..]; apply Hin; by eapply index_elem_of.
Qed.

End Provenance.

(** The start and end of a burst record are the timestamps of two messages
    of the input sent by the record's user. *)
Theorem detect_burst_messages_provenance (date_parse : DateParser)
    (messages : list Message) (threshold_count window_seconds : Z)
    (bursts : list Burst) (b : Burst) :
  detect_burst_messages date_parse messages threshold_count window_seconds
    = Ok bursts ->
  b ∈ bursts ->
  exists first last,
    first ∈ messages /\ last ∈ messages /\
    user_of first = b_user b /\ user_of last = b_user b /\
    subscript (m_timestamp first) = Ok (b_start b) /\
    subscript (m_timestamp last) = Ok (b_end b).
Proof.
  unfold detect_burst_messages. intros Hscan Hb.
  destruct (group_by_user_grouped messages) as (_ & Hexact & _).
  apply scan_users_sound in Hscan as [_ Hall].
  rewrite Forall_forall in Hall. destruct (Hall b Hb) as (msgs & Hin & Hrun).
  apply Hexact in Hin. subst msgs.
  apply scan_user_provenance in Hrun
    as (first & last & Hf%list_elem_of_filter & Hl%list_elem_of_filter & Hs & He).
  exists first, last. destruct Hf, Hl. by split_and!.
Qed.

Lemma detect_burst_messages_provenance_witness :
  exists first last,
    first ∈ busy_day /\ last ∈ busy_day /\
    user_of first = Some "Ann" /\ user_of last = Some "Ann" /\
    subscript (m_timestamp first) = Ok (Some "2024-01-01T10:00:00") /\
    subscript (m_timestamp last) = Ok (Some "2024-01-01T10:00:20").
Proof.
  apply (detect_burst_messages_provenance iso_parse busy_day 5 30
           [{| b_user := Some "Ann"; b_count := 5;
               b_start := Some "2024-01-01T10:00:00";
               b_end := Some "2024-01-01T10:00:20" |}]
           {| b_user := Some "Ann"; b_count := 5;
              b_start := Some "2024-01-01T10:00:00";
              b_end := Some "2024-01-01T10:00:20" |}).
  - vm_compute. reflexivity.
  - by left.
Defined.

(** A message whose text is [None] makes [main] raise [TypeError] at its
    first statistic, before any detector runs. *)
Theorem main_none_text (env : Env) (messages : list Message) (m : Message) :
  m ∈ messages -> m_text m = Null ->
  main env messages = Raise TypeError.
Proof.
  intros Hm Hnull. unfold main.
  assert (Hlengths :
    mapM (fun m => match get_default (m_text m) "" with
                   | Some t => Ok (len t)
                   | None => Raise TypeError
                   end) messages = Raise TypeError).
  { induction messages as [|m' messages IH]; [by apply elem_of_nil in Hm|].
    simpl. apply elem_of_cons in Hm as [->|Hm]; [by rewrite Hnull|].
    rewrite (IH Hm). by destruct (get_default (m_text m') ""). }
  by rewrite Hlengths.
Qed.

Lemma main_none_text_witness :
  main (offline iso_parse) [jet_request; no_text] = Raise TypeError.
Proof.
  apply (main_none_text (offline iso_parse) [jet_request; no_text] no_text).
  - right. by left.
  - reflexivity.
Defined.
